(** * Word Quest: the sentence controller, its prompt policy and its
      response filter

    A shallow embedding of the [Home] component of the word-quest
    repository and of its prompt builders, with the properties of the
    sentence-construction state machine.

    The repository holds three variants of the page.  The one modelled
    here is the direct-credential page with the hard filter: its
    [generatePair] (prompt tiers, parsing, filter) and its [Home]
    component ([fetchPair], [prefetchNext], [beginSentence], [submitKey],
    [chooseWord], [clearKey] and the two effects).  [chooseWord] and
    [prefetchNext] read the same, line for line, in the other two
    variants.  The earlier direct-credential page and the [POST] route of
    the proxied page share a second prompt builder, modelled as
    [positionPrompt].

    Conventions of the embedding.
    - JavaScript strings are modelled as [string], a character standing
      for a code unit below 256 (ASCII and Latin-1); on such strings
      [Js.toLowerCase] and [Js.trim] are the functions of the language.
    - [words.length] and [targetLength] are integers ([Z]).
    - A React state variable is a field of [Home]; a [useRef] cell is a
      field too (it is read when used, never captured).  An [async]
      handler is split at each [await]: the part before it runs inside the
      event that calls the handler, the part after it is a suspended
      [Task] that carries the values the closure captured at the call.
    - The completion endpoint, the timer and the user are the environment:
      an [Event] is a user action, the end of a pause or the answer to a
      request, and [step] runs its handler, the render and the effect.
    - [Math.floor(Math.random() * 5)] is a value between 0 and 4 handed to
      [mount]. *)

From Stdlib Require Import String Ascii List ZArith Bool Lia PeanoNat.
Import ListNotations.

Local Open Scope string_scope.
Local Open Scope list_scope.
Local Open Scope Z_scope.

(* ===================================================================== *)
(** ** JavaScript string helpers *)
(* ===================================================================== *)

Module Js.

(** [s.endsWith(".")] *)
Fixpoint endsWithPeriod (s : string) : bool :=
  match s with
  | EmptyString => false
  | String c rest =>
      match rest with
      | EmptyString => Ascii.eqb c "."
      | String _ _ => endsWithPeriod rest
      end
  end.

(** [s.replace(/\.$/, "")]: at most one period, at the very end. *)
Fixpoint stripPeriod (s : string) : string :=
  match s with
  | EmptyString => EmptyString
  | String c rest =>
      match rest with
      | EmptyString => if Ascii.eqb c "." then EmptyString else s
      | String _ _ => String c (stripPeriod rest)
      end
  end.

(** The lower-case form of a code unit below 256: the capitals are [A]
    to [Z] and U+00C0 to U+00DE but for the multiplication sign U+00D7,
    and each lies 32 below its small letter. *)
Definition lowerChar (c : ascii) : ascii :=
  let n := nat_of_ascii c in
  if ((Nat.leb 65 n && Nat.leb n 90)
      || (Nat.leb 192 n && Nat.leb n 222 && negb (Nat.eqb n 215)))%bool
  then ascii_of_nat (n + 32) else c.

(** [s.toLowerCase()] *)
Fixpoint toLowerCase (s : string) : string :=
  match s with
  | EmptyString => EmptyString
  | String c rest => String (lowerChar c) (toLowerCase rest)
  end.

(** [ws.join(sep)] *)
Definition join (sep : string) (ws : list string) : string :=
  String.concat sep ws.

(** The white space and line terminators that [trim] strips, as far as
    they lie below 256: TAB, LF, VT, FF, CR, the space and the no-break
    space U+00A0. *)
Definition isSpace (c : ascii) : bool :=
  let n := nat_of_ascii c in
  (Nat.eqb n 32 || (Nat.leb 9 n && Nat.leb n 13) || Nat.eqb n 160)%bool.

Fixpoint trimStart (s : string) : string :=
  match s with
  | EmptyString => EmptyString
  | String c rest => if isSpace c then trimStart rest else s
  end.

Fixpoint trimEnd (s : string) : string :=
  match s with
  | EmptyString => EmptyString
  | String c rest =>
      match trimEnd rest with
      | EmptyString => if isSpace c then EmptyString else String c EmptyString
      | kept => String c kept
      end
  end.

(** [s.trim()] *)
Definition trim (s : string) : string := trimEnd (trimStart s).

(** A [Set<string>] keeps its members in insertion order, once each. *)
Definition has (U : list string) (w : string) : bool :=
  existsb (String.eqb w) U.

Definition add (U : list string) (w : string) : list string :=
  if has U w then U else U ++ [w].

(** [new Set(ws)] *)
Definition setOf (ws : list string) : list string :=
  fold_left add ws [].

End Js.

(* ===================================================================== *)
(** ** Word pairs and the hard filter of [generatePair] *)
(* ===================================================================== *)

Record WordPair : Type := mkPair { safe : string; leap : string }.

(** What [JSON.parse(content)] hands to the filter: either field may be
    missing ([undefined] or [null]).  The interface types both as strings. *)
Record RawPair : Type := mkRaw { raw_safe : option string; raw_leap : option string }.

(** The period-stripped, case-folded form used for comparison. *)
Definition clean (w : string) : string := Js.toLowerCase (Js.stripPeriod w).

(** [new Set(words.map((w) => w.replace(/\.$/, "").toLowerCase()))] *)
Definition usedWordsOf (words : list string) : list string :=
  Js.setOf (map clean words).

(** [!field]: a missing field and the empty string are falsy. *)
Definition falsy (f : option string) : bool :=
  match f with
  | None => true
  | Some s => String.eqb s ""
  end.

(** The tail of [generatePair], from [if (!pair.safe || !pair.leap)] to
    [return pair]: the two assignments run one after the other on the same
    object, the second reading what the first may have written. *)
Definition validate (raw : RawPair) (usedWords : list string) : option WordPair :=
  if (falsy (raw_safe raw) || falsy (raw_leap raw))%bool then None
  else
    match raw_safe raw, raw_leap raw with
    | Some s, Some l =>
        let safeClean := clean s in
        let leapClean := clean l in
        if (Js.has usedWords safeClean && Js.has usedWords leapClean)%bool then None
        else
          let pair := mkPair s l in
          let pair := if Js.has usedWords safeClean
                      then mkPair (leap pair) (leap pair) else pair in
          let pair := if Js.has usedWords leapClean
                      then mkPair (safe pair) (safe pair) else pair in
          Some pair
    | _, _ => None
    end.

(** What the completion endpoint may do with a request, as [generatePair]
    sees it inside its [try]: the call rejects, the message has no content,
    [JSON.parse] throws (or a field is not a string, so that [.replace]
    throws), or an object with optional [safe] and [leap] comes back. *)
Inductive OracleReply : Type :=
| Rejected
| NoContent
| Unparsable
| Parsed (raw : RawPair).

(* ===================================================================== *)
(** ** Prompt builders *)
(* ===================================================================== *)

Definition len {A : Type} (l : list A) : Z := Z.of_nat (length l).

(** The branch of the [if] chain that builds [userPrompt] in the filtered
    [generatePair], with the values its template interpolates. *)
Inductive UserPrompt : Type :=
| AskOpening (targetLen : Z)
| AskLastWord (currentSentence used : string) (wordNo targetLen : Z)
| AskNearEnd (currentSentence used : string) (wordNo targetLen : Z)
| AskMiddle (currentSentence used : string) (wordNo targetLen : Z).

Definition userPrompt (words : list string) (targetLen : Z) : UserPrompt :=
  let currentSentence := Js.join " " words in
  let wordCount := len words in
  let remaining := targetLen - wordCount in
  let usedWords := usedWordsOf words in
  if wordCount =? 0 then AskOpening targetLen
  else if remaining <=? 1 then
    AskLastWord currentSentence (Js.join ", " usedWords) (wordCount + 1) targetLen
  else if remaining <=? 3 then
    AskNearEnd currentSentence (Js.join ", " usedWords) (wordCount + 1) targetLen
  else
    AskMiddle currentSentence (Js.join ", " usedWords) (wordCount + 1) targetLen.

(** The builder shared, word for word, by the earlier [generatePair]
    (which takes a [position] instead of a target length) and by the
    [POST] route: three templates, chosen against a fixed 10. *)
Inductive PositionPrompt : Type :=
| AskFirst
| AskEnding (currentSentence : string) (wordCount : Z)
| AskNext (currentSentence : string) (total wordNo : Z).

Definition positionPrompt (words : list string) (position : string) : PositionPrompt :=
  let currentSentence := Js.join " " words in
  let wordCount := len words in
  let targetLength :=
    if String.eqb position "first" then 10 else Z.max 0 (10 - wordCount) in
  if String.eqb position "first" then AskFirst
  else if targetLength <=? 2 then AskEnding currentSentence wordCount
  else AskNext currentSentence (wordCount + targetLength) (wordCount + 1).

(** [currentWords.length === 0 ? "first" : "middle"], as both callers of
    the positioned builder compute it. *)
Definition positionOf (currentWords : list string) : string :=
  if len currentWords =? 0 then "first" else "middle".

(** The policy tiers of the specification. *)
Inductive Tier : Type := Opening | LastWord | NearEnd | Middle.

(** What a template tells the model about punctuation:
    - [NoPunctuation]: "No punctuation." / "no punctuation";
    - [PeriodOnBoth]: "Add a period after each word.";
    - [PeriodIfEnding]: "If the word would end the sentence, add a period
      after it". *)
Inductive PeriodRule : Type := NoPunctuation | PeriodOnBoth | PeriodIfEnding.

Definition tierOf (p : UserPrompt) : Tier :=
  match p with
  | AskOpening _ => Opening
  | AskLastWord _ _ _ _ => LastWord
  | AskNearEnd _ _ _ _ => NearEnd
  | AskMiddle _ _ _ _ => Middle
  end.

Definition periodRule (p : UserPrompt) : PeriodRule :=
  match p with
  | AskOpening _ => NoPunctuation
  | AskLastWord _ _ _ _ => PeriodOnBoth
  | AskNearEnd _ _ _ _ => NoPunctuation
  | AskMiddle _ _ _ _ => NoPunctuation
  end.

Definition positionTier (p : PositionPrompt) : Tier :=
  match p with
  | AskFirst => Opening
  | AskEnding _ _ => NearEnd
  | AskNext _ _ _ => Middle
  end.

Definition positionPeriodRule (p : PositionPrompt) : PeriodRule :=
  match p with
  | AskFirst => NoPunctuation
  | AskEnding _ _ => PeriodIfEnding
  | AskNext _ _ _ => NoPunctuation
  end.

(** The three prompt builders of the repository. *)
Inductive Builder : Type :=
| FilteredPage      (* generatePair with the hard filter *)
| PositionedPage    (* the earlier generatePair *)
| PostRoute.        (* the POST handler of the proxied variant *)

Definition builderPolicy (b : Builder) (words : list string) (targetLength : Z)
  : Tier * PeriodRule :=
  match b with
  | FilteredPage =>
      let p := userPrompt words targetLength in (tierOf p, periodRule p)
  | PositionedPage | PostRoute =>
      let p := positionPrompt words (positionOf words) in
      (positionTier p, positionPeriodRule p)
  end.

(** The four-tier policy in the words of the specification, keyed on
    [remaining = targetLength - len(sentenceSoFar)]. *)
Definition policyBySpec (sentenceSoFar : list string) (targetLength : Z)
  : Tier * PeriodRule :=
  let remaining := targetLength - len sentenceSoFar in
  if len sentenceSoFar =? 0 then (Opening, NoPunctuation)
  else if remaining <=? 1 then (LastWord, PeriodOnBoth)
  else if (2 <=? remaining) && (remaining <=? 3) then (NearEnd, NoPunctuation)
  else (Middle, NoPunctuation).

(** [generatePair] once the endpoint has answered: every failure inside
    the [try] becomes [null]. *)
Definition generatePair (words : list string) (reply : OracleReply) : option WordPair :=
  match reply with
  | Rejected => None
  | NoContent => None
  | Unparsable => None
  | Parsed raw => validate raw (usedWordsOf words)
  end.

(* ===================================================================== *)
(** ** The [Home] component *)
(* ===================================================================== *)

Inductive Phase : Type := KeyEntry | Waiting | Choosing | Dissolving | Complete.

Inductive Side : Type := Safe | Leap.

Definition phase_eqb (a b : Phase) : bool :=
  match a, b with
  | KeyEntry, KeyEntry | Waiting, Waiting | Choosing, Choosing
  | Dissolving, Dissolving | Complete, Complete => true
  | _, _ => false
  end.

(** [currentPair[side]] *)
Definition pick (pair : WordPair) (side : Side) : string :=
  match side with Safe => safe pair | Leap => leap pair end.

(** The [useState] variables and the two [useRef] cells of [Home]. *)
Record Home : Type := mkHome {
  words : list string;
  phase : Phase;
  currentPair : option WordPair;
  prefetchedPair : option WordPair;
  chosenSide : option Side;
  targetLength : Z;
  isLoading : bool;
  sentenceCount : Z;
  apiKey : string;
  keyInput : string;
  keyError : bool;
  prefetchRef : bool;
  groqRef : option string
}.

(** The state setters.  [targetLength] has none: the component
    destructures [const [targetLength] = useState(...)] and never gets one. *)
Definition setWords (v : list string) (h : Home) : Home :=
  mkHome v (phase h) (currentPair h) (prefetchedPair h) (chosenSide h)
    (targetLength h) (isLoading h) (sentenceCount h) (apiKey h) (keyInput h)
    (keyError h) (prefetchRef h) (groqRef h).

Definition setPhase (v : Phase) (h : Home) : Home :=
  mkHome (words h) v (currentPair h) (prefetchedPair h) (chosenSide h)
    (targetLength h) (isLoading h) (sentenceCount h) (apiKey h) (keyInput h)
    (keyError h) (prefetchRef h) (groqRef h).

Definition setCurrentPair (v : option WordPair) (h : Home) : Home :=
  mkHome (words h) (phase h) v (prefetchedPair h) (chosenSide h)
    (targetLength h) (isLoading h) (sentenceCount h) (apiKey h) (keyInput h)
    (keyError h) (prefetchRef h) (groqRef h).

Definition setPrefetchedPair (v : option WordPair) (h : Home) : Home :=
  mkHome (words h) (phase h) (currentPair h) v (chosenSide h)
    (targetLength h) (isLoading h) (sentenceCount h) (apiKey h) (keyInput h)
    (keyError h) (prefetchRef h) (groqRef h).

Definition setChosenSide (v : option Side) (h : Home) : Home :=
  mkHome (words h) (phase h) (currentPair h) (prefetchedPair h) v
    (targetLength h) (isLoading h) (sentenceCount h) (apiKey h) (keyInput h)
    (keyError h) (prefetchRef h) (groqRef h).

Definition setIsLoading (v : bool) (h : Home) : Home :=
  mkHome (words h) (phase h) (currentPair h) (prefetchedPair h) (chosenSide h)
    (targetLength h) v (sentenceCount h) (apiKey h) (keyInput h)
    (keyError h) (prefetchRef h) (groqRef h).

Definition setSentenceCount (f : Z -> Z) (h : Home) : Home :=
  mkHome (words h) (phase h) (currentPair h) (prefetchedPair h) (chosenSide h)
    (targetLength h) (isLoading h) (f (sentenceCount h)) (apiKey h) (keyInput h)
    (keyError h) (prefetchRef h) (groqRef h).

Definition setApiKey (v : string) (h : Home) : Home :=
  mkHome (words h) (phase h) (currentPair h) (prefetchedPair h) (chosenSide h)
    (targetLength h) (isLoading h) (sentenceCount h) v (keyInput h)
    (keyError h) (prefetchRef h) (groqRef h).

Definition setKeyInput (v : string) (h : Home) : Home :=
  mkHome (words h) (phase h) (currentPair h) (prefetchedPair h) (chosenSide h)
    (targetLength h) (isLoading h) (sentenceCount h) (apiKey h) v
    (keyError h) (prefetchRef h) (groqRef h).

Definition setKeyError (v : bool) (h : Home) : Home :=
  mkHome (words h) (phase h) (currentPair h) (prefetchedPair h) (chosenSide h)
    (targetLength h) (isLoading h) (sentenceCount h) (apiKey h) (keyInput h)
    v (prefetchRef h) (groqRef h).

(** [prefetchRef.current = v] *)
Definition setPrefetchRef (v : bool) (h : Home) : Home :=
  mkHome (words h) (phase h) (currentPair h) (prefetchedPair h) (chosenSide h)
    (targetLength h) (isLoading h) (sentenceCount h) (apiKey h) (keyInput h)
    (keyError h) v (groqRef h).

(** [groqRef.current = v] *)
Definition setGroqRef (v : option string) (h : Home) : Home :=
  mkHome (words h) (phase h) (currentPair h) (prefetchedPair h) (chosenSide h)
    (targetLength h) (isLoading h) (sentenceCount h) (apiKey h) (keyInput h)
    (keyError h) (prefetchRef h) v.

(* ===================================================================== *)
(** ** Suspended handlers and the event loop *)
(* ===================================================================== *)

(** The three places that [await fetchPair(...)]. *)
Inductive Awaiter : Type :=
| ForBegin       (* beginSentence: const pair = await fetchPair([]) *)
| ForNext        (* chooseWord: const pair = await fetchPair(newWords) *)
| ForPrefetch.   (* prefetchNext: const pair = await fetchPair(nextWords) *)

(** A handler suspended at an [await].  [AwaitSettle] is [chooseWord] at
    its 800 ms pause; it holds what the closure captured from the render
    in which the choice was made: the chosen word, [words] and
    [prefetchedPair]. *)
Inductive Task : Type :=
| AwaitPair (who : Awaiter) (currentWords : list string)
| AwaitSettle (chosen : string) (words0 : list string) (prefetched0 : option WordPair).

(** The component instance in its environment. *)
Record World : Type := mkWorld {
  home : Home;
  tasks : list (nat * Task);      (* suspended handlers, by id *)
  nextId : nat;
  calls : list (list string);     (* completion requests issued, by their [words] *)
  storage : option string;        (* localStorage["groq-api-key"] *)
  entropy : list Z                (* what later Math.floor(Math.random() * 5) would yield *)
}.

Definition onHome (f : Home -> Home) (w : World) : World :=
  mkWorld (f (home w)) (tasks w) (nextId w) (calls w) (storage w) (entropy w).

Definition withTasks (ts : list (nat * Task)) (w : World) : World :=
  mkWorld (home w) ts (nextId w) (calls w) (storage w) (entropy w).

Definition withStorage (v : option string) (w : World) : World :=
  mkWorld (home w) (tasks w) (nextId w) (calls w) v (entropy w).

(** Suspend a handler. *)
Definition spawn (t : Task) (w : World) : World :=
  mkWorld (home w) (tasks w ++ [(nextId w, t)]) (S (nextId w)) (calls w)
    (storage w) (entropy w).

(** [groq.chat.completions.create(...)] goes out. *)
Definition request (currentWords : list string) (w : World) : World :=
  mkWorld (home w) (tasks w) (nextId w) (calls w ++ [currentWords])
    (storage w) (entropy w).

(** Find a suspended handler and take it off the list. *)
Fixpoint take (id : nat) (ts : list (nat * Task)) : option (Task * list (nat * Task)) :=
  match ts with
  | [] => None
  | (i, t) :: rest =>
      if Nat.eqb i id then Some (t, rest)
      else match take id rest with
           | Some (found, rest') => Some (found, (i, t) :: rest')
           | None => None
           end
  end.

(** [beginSentence] after its [await]. *)
Definition resumeBegin (pair : option WordPair) (h : Home) : Home :=
  let h :=
    match pair with
    | Some p => setPhase Choosing (setCurrentPair (Some p) h)
    | None => setPhase KeyEntry (setKeyError true h)
    end in
  setIsLoading false h.

(** [chooseWord] after [await fetchPair(newWords)]. *)
Definition resumeNext (pair : option WordPair) (h : Home) : Home :=
  let h :=
    match pair with
    | Some p => setPhase Choosing (setCurrentPair (Some p) h)
    | None => h
    end in
  setIsLoading false h.

(** [prefetchNext] after its [await]. *)
Definition resumePrefetch (pair : option WordPair) (h : Home) : Home :=
  setPrefetchRef false (setPrefetchedPair pair h).

Definition resumePair (who : Awaiter) (pair : option WordPair) (h : Home) : Home :=
  match who with
  | ForBegin => resumeBegin pair h
  | ForNext => resumeNext pair h
  | ForPrefetch => resumePrefetch pair h
  end.

(** [await fetchPair(currentWords)] in the handler [who].  Without a
    client [fetchPair] returns [null] at once and the handler goes on
    before any other event; with one, the request leaves and the handler
    stays suspended until the endpoint answers. *)
Definition fetchPair (who : Awaiter) (currentWords : list string) (w : World) : World :=
  match groqRef (home w) with
  | None => onHome (resumePair who None) w
  | Some _ => spawn (AwaitPair who currentWords) (request currentWords w)
  end.

(** [prefetchNext(currentWords, chosenWord)] *)
Definition prefetchNext (currentWords : list string) (chosenWord : string) (w : World) : World :=
  if prefetchRef (home w) then w
  else
    let w := onHome (setPrefetchRef true) w in
    let nextWords := currentWords ++ [chosenWord] in
    fetchPair ForPrefetch nextWords w.

(** [beginSentence()] up to its [await]. *)
Definition beginSentence (w : World) : World :=
  let w :=
    onHome (fun h =>
      setIsLoading true (setPrefetchedPair None (setChosenSide None
        (setPhase Waiting (setWords [] h))))) w in
  fetchPair ForBegin [] w.

(** [chooseWord(side)] up to the 800 ms pause.  [h] is the render the
    closure was created in. *)
Definition chooseWord (side : Side) (w : World) : World :=
  let h := home w in
  match phase h, currentPair h with
  | Choosing, Some current =>
      let chosen := pick current side in
      let w := onHome (fun x => setPhase Dissolving (setChosenSide (Some side) x)) w in
      let nextWords := words h ++ [chosen] in
      let w :=
        if len nextWords <? targetLength h
        then prefetchNext (words h) chosen w else w in
      spawn (AwaitSettle chosen (words h) (prefetchedPair h)) w
  | _, _ => w
  end.

(** [newWords[newWords.length - 1] = v] *)
Definition setLast (l : list string) (v : string) : list string :=
  match l with
  | [] => l
  | _ :: _ => removelast l ++ [v]
  end.

(** [chooseWord] from the end of the pause on.  [words0] and
    [prefetched0] are the captured values, not the current state; the
    captured [targetLength] is the current one, since nothing sets it. *)
Definition settle (chosen : string) (words0 : list string)
    (prefetched0 : option WordPair) (w : World) : World :=
  let newWords := words0 ++ [chosen] in
  let w := onHome (setWords newWords) w in
  let endsWithPeriod := Js.endsWithPeriod chosen in
  if ((targetLength (home w) <=? len newWords) || endsWithPeriod)%bool then
    let w :=
      if negb endsWithPeriod
      then onHome (setWords (setLast newWords (chosen ++ ".")%string)) w
      else w in
    onHome (fun h => setSentenceCount (fun c => c + 1) (setPhase Complete h)) w
  else
    let w := onHome (setChosenSide None) w in
    match prefetched0 with
    | Some p =>
        onHome (fun h =>
          setPhase Choosing (setPrefetchedPair None (setCurrentPair (Some p) h))) w
    | None => fetchPair ForNext newWords (onHome (setIsLoading true) w)
    end.

(** [submitKey()] *)
Definition submitKey (w : World) : World :=
  let trimmed := Js.trim (keyInput (home w)) in
  if String.eqb trimmed "" then w
  else
    withStorage (Some trimmed)
      (onHome (fun h =>
         setPhase Waiting (setGroqRef (Some trimmed)
           (setApiKey trimmed (setKeyError false h)))) w).

(** [clearKey()] *)
Definition clearKey (w : World) : World :=
  withStorage None
    (onHome (fun h =>
       setPhase KeyEntry (setGroqRef None (setKeyInput "" (setApiKey "" h)))) w).

(** The effect [if (apiKey && phase === "waiting") beginSentence()], run
    after a render in which [apiKey] or [phase] differs from the render
    before ([beginSentence] itself never changes identity). *)
Definition effects (before : Home) (w : World) : World :=
  let h := home w in
  let changed :=
    (negb (String.eqb (apiKey before) (apiKey h))
     || negb (phase_eqb (phase before) (phase h)))%bool in
  if (changed && negb (String.eqb (apiKey h) "") && phase_eqb (phase h) Waiting)%bool
  then beginSentence w else w.

(** What can happen to a mounted component. *)
Inductive Event : Type :=
| KeyTyped (text : string)                 (* the key input changes *)
| KeySubmitted                             (* Enter in the input, or the enter button *)
| KeyForgotten                             (* the forget-key button *)
| Picked (side : Side)                     (* a word button, an arrow key, 1 or 2 *)
| BeginAgain                               (* the begin-again button, Space or Enter *)
| Settled (id : nat)                       (* the 800 ms timer of a choice fires *)
| Answered (id : nat) (reply : OracleReply). (* the endpoint answers a request *)

(** The handler an event runs, when the page offers it: the key form is
    rendered in [key-entry] only, forget-key outside it while a key is
    held, begin-again (and its keys) in [complete] only.  A choice reaches
    [chooseWord], which guards itself. *)
Definition handle (w : World) (e : Event) : option World :=
  let h := home w in
  match e with
  | KeyTyped text =>
      if phase_eqb (phase h) KeyEntry then Some (onHome (setKeyInput text) w) else None
  | KeySubmitted =>
      if phase_eqb (phase h) KeyEntry then Some (submitKey w) else None
  | KeyForgotten =>
      if (negb (phase_eqb (phase h) KeyEntry) && negb (String.eqb (apiKey h) ""))%bool
      then Some (clearKey w) else None
  | Picked side => Some (chooseWord side w)
  | BeginAgain =>
      if phase_eqb (phase h) Complete then Some (beginSentence w) else None
  | Settled id =>
      match take id (tasks w) with
      | Some (AwaitSettle chosen words0 prefetched0, rest) =>
          Some (settle chosen words0 prefetched0 (withTasks rest w))
      | _ => None
      end
  | Answered id reply =>
      match take id (tasks w) with
      | Some (AwaitPair who currentWords, rest) =>
          Some (onHome (resumePair who (generatePair currentWords reply))
                  (withTasks rest w))
      | _ => None
      end
  end.

(** One event: its handler, the render, the effect. *)
Definition step (w : World) (e : Event) : option World :=
  match handle w e with
  | Some w' => Some (effects (home w) w')
  | None => None
  end.

Fixpoint run (es : list Event) (w : World) : option World :=
  match es with
  | [] => Some w
  | e :: rest =>
      match step w e with
      | Some w' => run rest w'
      | None => None
      end
  end.

(** Mounting: [useState] initialisers (the one draw of the target length),
    then the effect that recalls a stored key, then the begin effect.
    [draw] is the value of [Math.floor(Math.random() * 5)]. *)
Definition mount (stored : option string) (draw : Z) (future : list Z) : World :=
  let h0 := mkHome [] KeyEntry None None None (8 + draw) false 0 "" "" false false None in
  let w0 := mkWorld h0 [] 0%nat [] stored future in
  let w1 :=
    match stored with
    | Some key =>
        if String.eqb key "" then w0
        else onHome (fun h => setPhase Waiting (setGroqRef (Some key) (setApiKey key h))) w0
    | None => w0
    end in
  effects h0 w1.

(** The worlds a mounted component can be in. *)
Inductive Reachable : World -> Prop :=
| reach_mount (stored : option string) (draw : Z) (future : list Z) :
    0 <= draw <= 4 -> Reachable (mount stored draw future)
| reach_step (w w' : World) (e : Event) :
    Reachable w -> step w e = Some w' -> Reachable w'.

(** Handlers suspended in [prefetchNext]. *)
Definition awaitsPrefetch (t : Task) : bool :=
  match t with
  | AwaitPair ForPrefetch _ => true
  | _ => false
  end.

Definition isPrefetch (entry : nat * Task) : bool := awaitsPrefetch (snd entry).


(* ===================================================================== *)
(** ** Predicates, observations and scenarios used by the properties *)
(* ===================================================================== *)

(** [w'] has the target length and the unread random values of [w]. *)
Definition sameDraw (w w' : World) : Prop :=
  targetLength (home w') = targetLength (home w) /\ entropy w' = entropy w.



(** [w'] is in [complete] only if [w] was. *)
Definition noSeal (w w' : World) : Prop :=
  phase (home w') = Complete -> phase (home w) = Complete.

(** The word a sealing step leaves at the end of the sentence. *)
Definition sealed (chosen : string) : string :=
  if Js.endsWithPeriod chosen then chosen else (chosen ++ ".")%string.

(** What a run leaves to see: the phase, the sentence and the current pair. *)
Definition outcome (es : list Event) (w : World)
  : option (Phase * list string * option WordPair) :=
  match run es w with
  | Some w' => Some (phase (home w'), words (home w'), currentPair (home w'))
  | None => None
  end.

(** What a run leaves of the draw: the phase, the target length and the
    random values not yet read. *)
Definition drawAfter (es : list Event) (w : World) : option (Phase * Z * list Z) :=
  match run es w with
  | Some w' => Some (phase (home w'), targetLength (home w'), entropy w')
  | None => None
  end.

(** A reply that stands for the object [{safe: s, leap: l}]. *)
Definition replyWith (s l : string) : OracleReply := Parsed (mkRaw (Some s) (Some l)).

(** A component mounted with a stored key and a draw of 0 (target 8). *)
Definition mounted : World := mount (Some "gsk") 0 [].

Definition eightWords : list string :=
  ["the"; "morning"; "forgot"; "itself"; "and"; "became"; "something"; "like"].

Definition nineWords : list string := eightWords ++ ["quiet"].

(** The user picks the safe word twice; the first prefetch is answered
    during the first pause. *)
Definition prefetchRun : list Event :=
  [ Answered 0 (replyWith "the" "beneath");  (* first pair *)
    Picked Safe;                             (* "the": prefetch 1 for ["the"], pause 2 *)
    Answered 1 (replyWith "rain" "falls");   (* the prefetch for ["the"] arrives *)
    Settled 2;                               (* captured prefetchedPair is null: request 3 *)
    Answered 3 (replyWith "rain" "sky");     (* next pair *)
    Picked Safe;                             (* "rain": prefetch 4 for ["the"; "rain"], pause 5 *)
    Settled 5 ].                             (* captured prefetchedPair is the pair for ["the"] *)


(** A one-word sentence, then a second sentence of eight words chosen
    while the duplicate request of the restart is still unanswered; its
    answer arrives after the eighth word. *)
Definition lateReplyRun : list Event :=
  [ Answered 0 (replyWith "rain." "sun.");
    Picked Safe; Settled 2;                  (* "rain.": complete; prefetch 1 stays out *)
    BeginAgain;                              (* handler: request 3; begin effect: request 4 *)
    Answered 3 (replyWith "the" "beneath");
    Picked Safe; Settled 5; Answered 6 (replyWith "morning" "hour");
    Picked Safe; Settled 7; Answered 8 (replyWith "forgot" "unlearned");
    Picked Safe; Settled 9; Answered 10 (replyWith "itself" "everything");
    Picked Safe; Settled 11; Answered 12 (replyWith "and" "until");
    Picked Safe; Settled 13; Answered 14 (replyWith "became" "swallowed");
    Picked Safe; Settled 15; Answered 16 (replyWith "something" "nothing");
    Picked Safe; Settled 17; Answered 18 (replyWith "like" "beyond");
    Picked Safe; Settled 19;                 (* eighth word: complete *)
    Answered 4 (replyWith "forgiveness" "salt");  (* the duplicate is answered *)
    Picked Safe; Settled 20 ].

(** The events that come from the user; the other two come from the timer
    and from the endpoint. *)
Definition userEvent (e : Event) : bool :=
  match e with
  | Settled _ | Answered _ _ => false
  | _ => true
  end.

(** Nothing but prefetches is suspended: no [beginSentence] and no
    [chooseWord] is under way. *)
Definition idle (w : World) : bool := forallb isPrefetch (tasks w).

(** The worlds of a patient user, who types, clicks or presses a key only
    when the component is idle. *)
Inductive CalmReachable : World -> Prop :=
| calm_mount (stored : option string) (draw : Z) (future : list Z) :
    0 <= draw <= 4 -> CalmReachable (mount stored draw future)
| calm_step (w w' : World) (e : Event) :
    CalmReachable w -> (userEvent e = true -> idle w = true) ->
    step w e = Some w' -> CalmReachable w'.

Definition awaitsBegin (t : Task) : bool :=
  match t with
  | AwaitPair ForBegin _ => true
  | _ => false
  end.

Definition foreground (entry : nat * Task) : bool := negb (isPrefetch entry).

(** What a suspended [chooseWord] needs of the sentence [ws] and the
    target [T] to leave the sentence within the target. *)
Definition fits (ws : list string) (T : Z) (t : Task) : Prop :=
  match t with
  | AwaitSettle _ words0 _ => len words0 < T
  | AwaitPair ForNext _ => len ws < T
  | AwaitPair ForBegin _ => False
  | AwaitPair ForPrefetch _ => True
  end.

(** The three situations of a patient run. *)
Inductive Shape (ws : list string) (ph : Phase) (T : Z) (ts : list (nat * Task)) : Prop :=
| shape_idle :
    Forall (fun entry => isPrefetch entry = true) ts -> Shape ws ph T ts
| shape_beginning :
    ws = [] -> ph <> Complete ->
    Forall (fun entry => (isPrefetch entry || awaitsBegin (snd entry))%bool = true) ts ->
    Shape ws ph T ts
| shape_choosing :
    ph = Dissolving -> length (filter foreground ts) = 1%nat ->
    Forall (fun entry => fits ws T (snd entry)) ts ->
    Shape ws ph T ts.

(** The sentence invariant of the specification, with what it takes to
    carry it through the events. *)
Record Bounded (ws : list string) (ph : Phase) (T : Z) (ts : list (nat * Task)) : Prop :=
  mkBounded {
    bounded_target : 8 <= T <= 12;
    bounded_len : len ws <= T;
    bounded_choosing : ph = Choosing -> len ws < T;
    bounded_complete :
      ph = Complete ->
      exists (body : list string) (final : string),
        ws = body ++ [final] /\ Js.endsWithPeriod final = true;
    bounded_shape : Shape ws ph T ts
  }.

Definition calmInvariant (w : World) : Prop :=
  Bounded (words (home w)) (phase (home w)) (targetLength (home w)) (tasks w).

(* ===================================================================== *)
(** ** Further predicates: the key, the requests, the counter *)
(* ===================================================================== *)

(** The client held in [groqRef] is the one built from the key in
    [apiKey], and there is none without a key. *)
Definition clientMatchesKey (h : Home) : Prop :=
  groqRef h = if String.eqb (apiKey h) "" then None else Some (apiKey h).

(** The condition on which [chooseWord] seals the sentence at the end of
    the pause: [newWords.length >= targetLength || endsWithPeriod]. *)
Definition seals (T : Z) (words0 : list string) (chosen : string) : bool :=
  ((T <=? len (words0 ++ [chosen])) || Js.endsWithPeriod chosen)%bool.

(** [w'] holds the client and the target length of [w], and the requests
    issued on the way from [w] to [w'] are all for sentences shorter than
    the target; none is issued when [w] holds no client. *)
Definition Sends (w w' : World) : Prop :=
  groqRef (home w') = groqRef (home w) /\
  targetLength (home w') = targetLength (home w) /\
  exists extra : list (list string),
    calls w' = calls w ++ extra /\
    (groqRef (home w) = None -> extra = []) /\
    Forall (fun ws => len ws < targetLength (home w)) extra.

(** Before the first pair has arrived nothing has happened yet: the phase
    is [key-entry] or [waiting], the sentence is empty, and nothing but
    [beginSentence] is suspended. *)
Definition pristine (w : World) : Prop :=
  (phase (home w) = KeyEntry \/ phase (home w) = Waiting) /\
  words (home w) = [] /\
  Forall (fun entry => awaitsBegin (snd entry) = true) (tasks w).

(* ===================================================================== *)
(** ** The earlier [generatePair], the [POST] route and its client *)
(* ===================================================================== *)

(** A field of the value that [JSON.parse(content)] yields, as far as the
    code can tell values apart: an absent key, a string, or anything
    else, of which only the truthiness shows ([null], [false] and [0] are
    falsy; any other number, [true], an array and an object are truthy). *)
Inductive Json : Type :=
| Absent
| Str (s : string)
| NonString (isTruthy : bool).

(** [!!v] *)
Definition truthy (v : Json) : bool :=
  match v with
  | Absent => false
  | Str s => negb (String.eqb s "")
  | NonString isTruthy => isTruthy
  end.

(** The parsed value read through [.safe] and [.leap].  The code types it
    [WordPair] whatever the two fields hold. *)
Record ParsedPair : Type := mkParsed { parsed_safe : Json; parsed_leap : Json }.

(** A pair of words as a parsed value. *)
Definition jsonOf (p : WordPair) : ParsedPair := mkParsed (Str (safe p)) (Str (leap p)).

(** The parsed value as a pair of words, when both fields are strings. *)
Definition wordPairOf (b : ParsedPair) : option WordPair :=
  match parsed_safe b, parsed_leap b with
  | Str s, Str l => Some (mkPair s l)
  | _, _ => None
  end.

(** What a completion request comes to, up to the test of the fields. *)
Inductive Completion : Type :=
| CallRejected                 (* [groq.chat.completions.create(...)] rejects *)
| ContentMissing               (* [!content]: no choice, no message, a null or an empty content *)
| ParseThrew                   (* [JSON.parse(content)] throws, or yields [null], whose [.safe] throws *)
| Object (parsed : ParsedPair). (* any other value *)

(** The earlier [generatePair] once the endpoint has answered: the same
    [try] as the later one, without the hard filter.  It returns the
    parsed value itself. *)
Definition generatePairPositioned (c : Completion) : option ParsedPair :=
  match c with
  | CallRejected => None
  | ContentMissing => None
  | ParseThrew => None
  | Object parsed =>
      if (negb (truthy (parsed_safe parsed)) || negb (truthy (parsed_leap parsed)))%bool
      then None
      else Some parsed
  end.

(** What the route answers: [NextResponse.json(pair)], status 200, or
    [NextResponse.json({ error }, { status: 500 })]. *)
Inductive Answer : Type :=
| Json200 (body : ParsedPair)
| Json500 (error : string).

(** The [POST] handler once the endpoint has answered.  A rejected call
    and a [JSON.parse] that throws both end in the [catch]. *)
Definition POST (c : Completion) : Answer :=
  match c with
  | CallRejected => Json500 "Failed to generate words"
  | ContentMissing => Json500 "No response from model"
  | ParseThrew => Json500 "Failed to generate words"
  | Object parsed =>
      if (negb (truthy (parsed_safe parsed)) || negb (truthy (parsed_leap parsed)))%bool
      then Json500 "Invalid word pair format"
      else Json200 parsed
  end.

(** A response of the route as the proxied page reads it, its
    [fetchPair] being typed [Promise<WordPair | null>]: status 200 with a
    pair of words for a body, or a status that is not ok. *)
Inductive Response : Type :=
| Ok200 (body : WordPair)
| Error500 (error : string).

(** An answer of the route as such a response: a 200 is one when its
    body holds two strings. *)
Definition asResponse (a : Answer) : option Response :=
  match a with
  | Json200 body =>
      match wordPairOf body with
      | Some p => Some (Ok200 p)
      | None => None
      end
  | Json500 error => Some (Error500 error)
  end.

(** What [fetch("/api/words", ...)] gives the proxied page: it throws, or
    a response arrives. *)
Inductive Fetched : Type :=
| FetchThrew
| Got (response : Response).

(** [fetchPair] of the proxied page after its [await fetch(...)]:
    [if (!res.ok) return null; return await res.json()], inside a [try]. *)
Definition proxiedFetchPair (f : Fetched) : option WordPair :=
  match f with
  | FetchThrew => None
  | Got (Ok200 body) => Some body
  | Got (Error500 _) => None
  end.

(** A field as the filtering [generatePair] can use it: a falsy value
    that is no string fails [!pair.safe || !pair.leap] as an absent field
    does; a truthy one has no [.replace]. *)
Definition fieldOf (v : Json) : option (option string) :=
  match v with
  | Absent => Some None
  | Str s => Some (Some s)
  | NonString false => Some None
  | NonString true => None
  end.

(** The same completion as the filtering [generatePair] meets it inside
    its [try] (see [OracleReply]).  With a truthy field that is no string
    it comes to null whatever the other field holds, by the test of the
    fields or by [.replace] throwing, as it does when [JSON.parse]
    throws. *)
Definition asReply (c : Completion) : OracleReply :=
  match c with
  | CallRejected => Rejected
  | ContentMissing => NoContent
  | ParseThrew => Unparsable
  | Object parsed =>
      match fieldOf (parsed_safe parsed), fieldOf (parsed_leap parsed) with
      | Some s, Some l => Parsed (mkRaw s l)
      | _, _ => Unparsable
      end
  end.

(* ===================================================================== *)
(** ** What suspended handlers hold in a patient run *)
(* ===================================================================== *)

(** A suspended handler is up to date with the page [h]: a choice in its
    pause and a fetch for the next pair hold the sentence as it stands,
    the chosen word is a word of the pair on show, and a [beginSentence]
    asked for the empty sentence. *)
Definition current (h : Home) (t : Task) : Prop :=
  match t with
  | AwaitSettle chosen words0 _ =>
      words0 = words h /\
      exists p : WordPair,
        currentPair h = Some p /\ (chosen = safe p \/ chosen = leap p)
  | AwaitPair ForNext currentWords => currentWords = words h
  | AwaitPair ForBegin currentWords => currentWords = [] /\ words h = []
  | AwaitPair ForPrefetch _ => True
  end.

Definition upToDate (w : World) : Prop :=
  Forall (fun entry => current (home w) (snd entry)) (tasks w).

(* ===================================================================== *)
(** ** The proxied page *)
(* ===================================================================== *)

(** The [Home] component that asks the [/api/words] route for its pairs.
    It has no credential and no key screen; [beginSentence] runs once, on
    mount, and from the begin-again control.  Suspended handlers are the
    [Task]s of the direct page. *)
Module Proxied.

Inductive Phase : Type := Waiting | Choosing | Dissolving | Complete.

(** The [useState] variables and the [useRef] cell. *)
Record Home : Type := mkHome {
  words : list string;
  phase : Phase;
  currentPair : option WordPair;
  prefetchedPair : option WordPair;
  chosenSide : option Side;
  targetLength : Z;
  isLoading : bool;
  sentenceCount : Z;
  prefetchRef : bool
}.

Definition setWords (v : list string) (h : Home) : Home :=
  mkHome v (phase h) (currentPair h) (prefetchedPair h) (chosenSide h)
    (targetLength h) (isLoading h) (sentenceCount h) (prefetchRef h).

Definition setPhase (v : Phase) (h : Home) : Home :=
  mkHome (words h) v (currentPair h) (prefetchedPair h) (chosenSide h)
    (targetLength h) (isLoading h) (sentenceCount h) (prefetchRef h).

Definition setCurrentPair (v : option WordPair) (h : Home) : Home :=
  mkHome (words h) (phase h) v (prefetchedPair h) (chosenSide h)
    (targetLength h) (isLoading h) (sentenceCount h) (prefetchRef h).

Definition setPrefetchedPair (v : option WordPair) (h : Home) : Home :=
  mkHome (words h) (phase h) (currentPair h) v (chosenSide h)
    (targetLength h) (isLoading h) (sentenceCount h) (prefetchRef h).

Definition setChosenSide (v : option Side) (h : Home) : Home :=
  mkHome (words h) (phase h) (currentPair h) (prefetchedPair h) v
    (targetLength h) (isLoading h) (sentenceCount h) (prefetchRef h).

Definition setIsLoading (v : bool) (h : Home) : Home :=
  mkHome (words h) (phase h) (currentPair h) (prefetchedPair h) (chosenSide h)
    (targetLength h) v (sentenceCount h) (prefetchRef h).

Definition setSentenceCount (f : Z -> Z) (h : Home) : Home :=
  mkHome (words h) (phase h) (currentPair h) (prefetchedPair h) (chosenSide h)
    (targetLength h) (isLoading h) (f (sentenceCount h)) (prefetchRef h).

(** [prefetchRef.current = v] *)
Definition setPrefetchRef (v : bool) (h : Home) : Home :=
  mkHome (words h) (phase h) (currentPair h) (prefetchedPair h) (chosenSide h)
    (targetLength h) (isLoading h) (sentenceCount h) v.

(** The component instance in its environment. *)
Record World : Type := mkWorld {
  home : Home;
  tasks : list (nat * Task);      (* suspended handlers, by id *)
  nextId : nat;
  calls : list (list string)      (* requests to the route, by their [words] *)
}.

Definition onHome (f : Home -> Home) (w : World) : World :=
  mkWorld (f (home w)) (tasks w) (nextId w) (calls w).

Definition withTasks (ts : list (nat * Task)) (w : World) : World :=
  mkWorld (home w) ts (nextId w) (calls w).

(** [await fetchPair(currentWords)] in the handler [who]: the request to
    the route leaves and the handler stays suspended until [fetch]
    settles. *)
Definition fetchPair (who : Awaiter) (currentWords : list string) (w : World) : World :=
  mkWorld (home w) (tasks w ++ [(nextId w, AwaitPair who currentWords)])
    (S (nextId w)) (calls w ++ [currentWords]).

(** [beginSentence] after its [await]: a null pair is ignored. *)
Definition resumeBegin (pair : option WordPair) (h : Home) : Home :=
  let h :=
    match pair with
    | Some p => setPhase Choosing (setCurrentPair (Some p) h)
    | None => h
    end in
  setIsLoading false h.

(** [chooseWord] after [await fetchPair(newWords)]. *)
Definition resumeNext (pair : option WordPair) (h : Home) : Home :=
  let h :=
    match pair with
    | Some p => setPhase Choosing (setCurrentPair (Some p) h)
    | None => h
    end in
  setIsLoading false h.

(** [prefetchNext] after its [await]. *)
Definition resumePrefetch (pair : option WordPair) (h : Home) : Home :=
  setPrefetchRef false (setPrefetchedPair pair h).

Definition resumePair (who : Awaiter) (pair : option WordPair) (h : Home) : Home :=
  match who with
  | ForBegin => resumeBegin pair h
  | ForNext => resumeNext pair h
  | ForPrefetch => resumePrefetch pair h
  end.

(** [prefetchNext(currentWords, chosenWord)] *)
Definition prefetchNext (currentWords : list string) (chosenWord : string) (w : World) : World :=
  if prefetchRef (home w) then w
  else
    let w := onHome (setPrefetchRef true) w in
    let nextWords := currentWords ++ [chosenWord] in
    fetchPair ForPrefetch nextWords w.

(** [beginSentence()] up to its [await]. *)
Definition beginSentence (w : World) : World :=
  let w :=
    onHome (fun h =>
      setIsLoading true (setPrefetchedPair None (setChosenSide None
        (setPhase Waiting (setWords [] h))))) w in
  fetchPair ForBegin [] w.

(** [chooseWord(side)] up to the 800 ms pause. *)
Definition chooseWord (side : Side) (w : World) : World :=
  let h := home w in
  match phase h, currentPair h with
  | Choosing, Some current =>
      let chosen := pick current side in
      let w := onHome (fun x => setPhase Dissolving (setChosenSide (Some side) x)) w in
      let nextWords := words h ++ [chosen] in
      let w :=
        if len nextWords <? targetLength h
        then prefetchNext (words h) chosen w else w in
      mkWorld (home w)
        (tasks w ++ [(nextId w, AwaitSettle chosen (words h) (prefetchedPair h))])
        (S (nextId w)) (calls w)
  | _, _ => w
  end.

(** [chooseWord] from the end of the pause on, with the captured [words]
    and [prefetchedPair]. *)
Definition settle (chosen : string) (words0 : list string)
    (prefetched0 : option WordPair) (w : World) : World :=
  let newWords := words0 ++ [chosen] in
  let w := onHome (setWords newWords) w in
  let endsWithPeriod := Js.endsWithPeriod chosen in
  if ((targetLength (home w) <=? len newWords) || endsWithPeriod)%bool then
    let w :=
      if negb endsWithPeriod
      then onHome (setWords (setLast newWords (chosen ++ ".")%string)) w
      else w in
    onHome (fun h => setSentenceCount (fun c => c + 1) (setPhase Complete h)) w
  else
    let w := onHome (setChosenSide None) w in
    match prefetched0 with
    | Some p =>
        onHome (fun h =>
          setPhase Choosing (setPrefetchedPair None (setCurrentPair (Some p) h))) w
    | None => fetchPair ForNext newWords (onHome (setIsLoading true) w)
    end.

(** What can happen to the mounted page. *)
Inductive Event : Type :=
| Picked (side : Side)                     (* a word button, an arrow key, 1 or 2 *)
| BeginAgain                               (* the begin-again button, Space or Enter *)
| Settled (id : nat)                       (* the 800 ms timer of a choice fires *)
| Responded (id : nat) (result : Fetched).  (* the [fetch] of a request settles *)

(** The handler an event runs, when the page offers it: begin-again (and
    its keys) in [complete] only.  A choice reaches [chooseWord], which
    guards itself. *)
Definition handle (w : World) (e : Event) : option World :=
  match e with
  | Picked side => Some (chooseWord side w)
  | BeginAgain =>
      match phase (home w) with
      | Complete => Some (beginSentence w)
      | _ => None
      end
  | Settled id =>
      match take id (tasks w) with
      | Some (AwaitSettle chosen words0 prefetched0, rest) =>
          Some (settle chosen words0 prefetched0 (withTasks rest w))
      | _ => None
      end
  | Responded id result =>
      match take id (tasks w) with
      | Some (AwaitPair who _, rest) =>
          Some (onHome (resumePair who (proxiedFetchPair result)) (withTasks rest w))
      | _ => None
      end
  end.

(** Mounting: the [useState] initialisers, then the effect
    [beginSentence()], which runs this once: [beginSentence] and
    [fetchPair] are callbacks that never change identity.  [draw] is the
    value of [Math.floor(Math.random() * 5)]. *)
Definition mount (draw : Z) : World :=
  beginSentence
    (mkWorld (mkHome [] Waiting None None None (8 + draw) false 0 false) [] 0%nat []).

(** The worlds the mounted page can be in. *)
Inductive Reachable : World -> Prop :=
| reach_mount (draw : Z) : 0 <= draw <= 4 -> Reachable (mount draw)
| reach_step (w w' : World) (e : Event) :
    Reachable w -> handle w e = Some w' -> Reachable w'.

(** At most one handler other than a prefetch is suspended, and what it
    is goes with the phase: a [beginSentence] and an empty sentence in
    [waiting]; nothing in [choosing] and in [complete]; in [dissolving] a
    choice that captured fewer words than the target, or its fetch for a
    sentence shorter than the target. *)
Definition steady (w : World) : Prop :=
  let h := home w in
  8 <= targetLength h <= 12 /\
  len (words h) <= targetLength h /\
  (length (filter foreground (tasks w)) <= 1)%nat /\
  match phase h with
  | Waiting =>
      words h = [] /\
      Forall (fun entry => (isPrefetch entry || awaitsBegin (snd entry))%bool = true)
        (tasks w)
  | Choosing =>
      len (words h) < targetLength h /\ currentPair h <> None /\
      Forall (fun entry => isPrefetch entry = true) (tasks w)
  | Dissolving =>
      Forall (fun entry => fits (words h) (targetLength h) (snd entry)) (tasks w)
  | Complete =>
      Forall (fun entry => isPrefetch entry = true) (tasks w) /\
      exists (body : list string) (final : string),
        words h = body ++ [final] /\ Js.endsWithPeriod final = true
  end.

(** Every request so far was for a sentence shorter than the target. *)
Definition modest (w : World) : Prop :=
  8 <= targetLength (home w) <= 12 /\
  Forall (fun ws => len ws < targetLength (home w)) (calls w).

End Proxied.

(* ===================================================================== *)
(** * Properties *)
(* ===================================================================== *)

(** ** Strings and sets *)

Module JsFacts.

Lemma has_In (U : list string) (w : string) : Js.has U w = true <-> In w U.
Proof.
  unfold Js.has. rewrite existsb_exists. split.
  - intros [x [Hin Heq]]. apply String.eqb_eq in Heq. now subst.
  - intros Hin. exists w. split; [ assumption | apply String.eqb_refl ].
Qed.

Lemma has_false (U : list string) (w : string) :
  Js.has U w = false <-> ~ In w U.
Proof.
  rewrite <- has_In. destruct (Js.has U w); split; congruence.
Qed.

Lemma add_In (U : list string) (w x : string) :
  In x (Js.add U w) <-> In x U \/ x = w.
Proof.
  unfold Js.add. destruct (Js.has U w) eqn:E.
  - apply has_In in E. split; [ tauto | intros [H | H]; subst; assumption ].
  - rewrite in_app_iff. cbn. split; intros [H | H]; auto.
    + destruct H as [H | []]. auto.
Qed.

Lemma fold_add_In (ws acc : list string) (x : string) :
  In x (fold_left Js.add ws acc) <-> In x acc \/ In x ws.
Proof.
  revert acc. induction ws as [| w ws IH]; intros acc; cbn [fold_left].
  - cbn. tauto.
  - rewrite IH, add_In. cbn. intuition congruence.
Qed.

Lemma setOf_In (ws : list string) (x : string) : In x (Js.setOf ws) <-> In x ws.
Proof.
  unfold Js.setOf. rewrite fold_add_In. cbn. tauto.
Qed.

Lemma endsWithPeriod_append (s : string) :
  Js.endsWithPeriod (s ++ ".")%string = true.
Proof.
  induction s as [| c rest IH]; [ reflexivity | ].
  change (String c rest ++ ".")%string with (String c (rest ++ ".")%string).
  cbn [Js.endsWithPeriod]. destruct (rest ++ ".")%string eqn:E.
  - destruct rest; discriminate.
  - exact IH.
Qed.

End JsFacts.

(** ** The hard filter *)

Lemma falsy_false (f : option string) :
  falsy f = false -> exists s, f = Some s /\ s <> "".
Proof.
  destruct f as [s |]; cbn; [ | discriminate ].
  intros E. exists s. split; [ reflexivity | ].
  intros ->. discriminate.
Qed.

Lemma falsy_some (s : string) : s <> "" -> falsy (Some s) = false.
Proof.
  intros Hs. cbn. destruct (String.eqb_spec s ""); congruence.
Qed.

(** A missing or empty field makes the filter return null. *)
Lemma validate_missing (raw : RawPair) (U : list string) :
  falsy (raw_safe raw) = true \/ falsy (raw_leap raw) = true ->
  validate raw U = None.
Proof.
  intros H. unfold validate.
  destruct (falsy (raw_safe raw)), (falsy (raw_leap raw));
    cbn [orb]; try reflexivity.
  destruct H; discriminate.
Qed.

(** The filter on two present, non-empty words, by which of them is used. *)
Lemma validate_present (s l : string) (U : list string) :
  s <> "" -> l <> "" ->
  validate (mkRaw (Some s) (Some l)) U =
    match Js.has U (clean s), Js.has U (clean l) with
    | true, true => None
    | true, false => Some (mkPair l l)
    | false, true => Some (mkPair s s)
    | false, false => Some (mkPair s l)
    end.
Proof.
  intros Hs Hl. unfold validate. cbn [raw_safe raw_leap].
  rewrite (falsy_some s Hs), (falsy_some l Hl). cbn [orb].
  destruct (Js.has U (clean s)), (Js.has U (clean l)); reflexivity.
Qed.

(** C3: the response filter returns null when a field is absent or empty
    and when both cleaned words are used; when exactly one is used it
    returns the pair with that field replaced by the other field's
    original value; otherwise it returns the pair unchanged.  The two
    examples of the specification are the last two conjuncts. *)
Theorem validate_cases (raw : RawPair) (U : list string) :
  ((falsy (raw_safe raw) = true \/ falsy (raw_leap raw) = true) ->
     validate raw U = None) /\
  (forall s l : string,
     raw = mkRaw (Some s) (Some l) -> s <> "" -> l <> "" ->
     (In (clean s) U /\ In (clean l) U -> validate raw U = None) /\
     (In (clean s) U /\ ~ In (clean l) U ->
        validate raw U = Some (mkPair l l)) /\
     (~ In (clean s) U /\ In (clean l) U ->
        validate raw U = Some (mkPair s s)) /\
     (~ In (clean s) U /\ ~ In (clean l) U ->
        validate raw U = Some (mkPair s l))) /\
  validate (mkRaw (Some "the") (Some "window")) ["the"]
    = Some (mkPair "window" "window") /\
  validate (mkRaw (Some "rain") (Some "rain")) []
    = Some (mkPair "rain" "rain").
Proof.
  split; [ | split; [ | split; reflexivity ] ].
  - apply validate_missing.
  - intros s l -> Hs Hl. rewrite (validate_present s l U Hs Hl).
    repeat split; intros [Hin1 Hin2].
    + apply JsFacts.has_In in Hin1, Hin2. now rewrite Hin1, Hin2.
    + apply JsFacts.has_In in Hin1. apply JsFacts.has_false in Hin2.
      now rewrite Hin1, Hin2.
    + apply JsFacts.has_false in Hin1. apply JsFacts.has_In in Hin2.
      now rewrite Hin1, Hin2.
    + apply JsFacts.has_false in Hin1, Hin2. now rewrite Hin1, Hin2.
Qed.

(** The repair case of [validate_cases] at "The." / "window" with "the"
    already used. *)
Lemma validate_cases_witness :
  In (clean "The.") ["the"] /\ ~ In (clean "window") ["the"] /\
  validate (mkRaw (Some "The.") (Some "window")) ["the"]
    = Some (mkPair "window" "window").
Proof.
  assert (Hin : In (clean "The.") ["the"]) by (vm_compute; auto).
  assert (Hout : ~ In (clean "window") ["the"]).
  { vm_compute. intros [H | []]. discriminate. }
  split; [ exact Hin | split; [ exact Hout | ] ].
  refine (proj1 (proj2 (proj1 (proj2
    (validate_cases (mkRaw (Some "The.") (Some "window")) ["the"]))
    "The." "window" eq_refl _ _)) (conj Hin Hout)); discriminate.
Defined.

(** C8: a pair that leaves the filter has no field whose cleaned form is
    in the used-word set; through [generatePair], neither side of the pair
    cleans to the cleaned form of a word of the sentence it was asked for. *)
Theorem validate_never_returns_used (raw : RawPair) (U : list string) (p : WordPair) :
  validate raw U = Some p ->
  (~ In (clean (safe p)) U /\ ~ In (clean (leap p)) U) /\
  (forall (ws : list string) (side : Side) (w : string),
     U = usedWordsOf ws -> In w ws -> clean (pick p side) <> clean w).
Proof.
  intros Hv.
  assert (Hfree : ~ In (clean (safe p)) U /\ ~ In (clean (leap p)) U).
  { unfold validate in Hv.
    destruct (falsy (raw_safe raw)) eqn:Es; [ discriminate | ].
    destruct (falsy (raw_leap raw)) eqn:El; [ discriminate | ].
    cbn [orb] in Hv.
    destruct (raw_safe raw) as [s |]; [ | discriminate ].
    destruct (raw_leap raw) as [l |]; [ | discriminate ].
    destruct (Js.has U (clean s)) eqn:Hs, (Js.has U (clean l)) eqn:Hl;
      cbn in Hv; try discriminate;
      injection Hv as <-; cbn [safe leap];
      rewrite <- ?JsFacts.has_false; auto. }
  split; [ exact Hfree | ].
  intros ws side w -> Hin Heq.
  assert (Hused : In (clean w) (usedWordsOf ws)).
  { unfold usedWordsOf. apply JsFacts.setOf_In. now apply in_map. }
  rewrite <- Heq in Hused. destruct side; cbn [pick] in Hused; tauto.
Qed.

(** [validate_never_returns_used] on the repaired pair of the
    specification's example. *)
Lemma validate_never_returns_used_witness :
  validate (mkRaw (Some "the") (Some "window")) (usedWordsOf ["the"])
    = Some (mkPair "window" "window") /\
  ~ In (clean "window") (usedWordsOf ["the"]).
Proof.
  split; [ reflexivity | ].
  exact (proj1 (proj1 (validate_never_returns_used
    (mkRaw (Some "the") (Some "window")) (usedWordsOf ["the"])
    (mkPair "window" "window") eq_refl))).
Defined.

(** ** Prompt tiers *)

Lemma len_nil_iff {A : Type} (l : list A) : (len l =? 0) = true <-> l = [].
Proof.
  unfold len. destruct l; cbn; split; intros H; try reflexivity; try discriminate.
Qed.

(** The filtered builder follows the four-tier policy of the
    specification. *)
Lemma userPrompt_policy (ws : list string) (T : Z) :
  builderPolicy FilteredPage ws T = policyBySpec ws T.
Proof.
  unfold builderPolicy, policyBySpec, userPrompt.
  destruct (len ws =? 0) eqn:E0; [ reflexivity | ].
  destruct (T - len ws <=? 1) eqn:E1; [ reflexivity | ].
  destruct (T - len ws <=? 3) eqn:E3.
  - assert ((2 <=? T - len ws) = true) as -> by lia. reflexivity.
  - cbn [andb]. destruct (2 <=? T - len ws); reflexivity.
Qed.

(** The positioned builder looks at the word count alone, against 10. *)
Lemma positionPrompt_policy (ws : list string) :
  let p := positionPrompt ws (positionOf ws) in
  (positionTier p, positionPeriodRule p) =
    if len ws =? 0 then (Opening, NoPunctuation)
    else if 8 <=? len ws then (NearEnd, PeriodIfEnding)
    else (Middle, NoPunctuation).
Proof.
  unfold positionPrompt, positionOf.
  destruct (len ws =? 0) eqn:E0; [ reflexivity | ].
  cbn [String.eqb Ascii.eqb Bool.eqb].
  destruct (Z.max 0 (10 - len ws) <=? 2) eqn:E2.
  - assert ((8 <=? len ws) = true) as -> by lia. reflexivity.
  - assert ((8 <=? len ws) = false) as -> by lia. reflexivity.
Qed.

(** C5, as amended: the filtered [generatePair] selects among exactly the
    four tiers of the specification by [targetLength - len], with the
    period demanded on both words in the last-word tier only; the earlier
    [generatePair] and the [POST] route select among three templates by
    the word count against a fixed 10, whatever the target length, and
    their ending template asks for a period only if the word would end
    the sentence. *)
Theorem prompt_tiers (ws : list string) (T : Z) :
  builderPolicy FilteredPage ws T = policyBySpec ws T /\
  builderPolicy PositionedPage ws T =
    (if len ws =? 0 then (Opening, NoPunctuation)
     else if 8 <=? len ws then (NearEnd, PeriodIfEnding)
     else (Middle, NoPunctuation)) /\
  builderPolicy PostRoute ws T = builderPolicy PositionedPage ws T /\
  builderPolicy FilteredPage [] 10 = (Opening, NoPunctuation) /\
  builderPolicy FilteredPage nineWords 10 = (LastWord, PeriodOnBoth) /\
  builderPolicy FilteredPage eightWords 10 = (NearEnd, NoPunctuation) /\
  builderPolicy FilteredPage ["the"; "morning"] 10 = (Middle, NoPunctuation).
Proof.
  split; [ apply userPrompt_policy | ].
  split; [ apply positionPrompt_policy | ].
  repeat split; reflexivity.
Qed.

(** C5 fails as stated for the positioned builders: with nine words and a
    target of 10 they pick the same ending template as with eight words,
    with a conditional period, where the policy demands the last-word tier
    with a period on both words. *)
Lemma positioned_builders_have_no_last_word_tier :
  len nineWords = 9 /\
  policyBySpec nineWords 10 = (LastWord, PeriodOnBoth) /\
  builderPolicy PositionedPage nineWords 10 = (NearEnd, PeriodIfEnding) /\
  builderPolicy PostRoute nineWords 10 = (NearEnd, PeriodIfEnding) /\
  positionPrompt nineWords (positionOf nineWords)
    = AskEnding (Js.join " " nineWords) 9 /\
  positionPrompt eightWords (positionOf eightWords)
    = AskEnding (Js.join " " eightWords) 8 /\
  builderPolicy PositionedPage nineWords 10 <> policyBySpec nineWords 10.
Proof.
  repeat split; try reflexivity. discriminate.
Qed.

(** ** The controller: what no event changes *)

#[local] Arguments String.eqb : simpl never.
#[local] Arguments Js.endsWithPeriod : simpl never.

Lemma sameDraw_refl (w : World) : sameDraw w w.
Proof. split; reflexivity. Qed.

Lemma sameDraw_trans (a b c : World) : sameDraw a b -> sameDraw b c -> sameDraw a c.
Proof. unfold sameDraw. intros [H1 H2] [H3 H4]. split; congruence. Qed.

Lemma fetchPair_draw (who : Awaiter) (ws : list string) (w : World) :
  sameDraw w (fetchPair who ws w).
Proof.
  unfold fetchPair. destruct (groqRef (home w)).
  - split; reflexivity.
  - destruct who; split; reflexivity.
Qed.

Lemma prefetchNext_draw (ws : list string) (c : string) (w : World) :
  sameDraw w (prefetchNext ws c w).
Proof.
  unfold prefetchNext. destruct (prefetchRef (home w)).
  - apply sameDraw_refl.
  - eapply sameDraw_trans; [ | apply fetchPair_draw ]. split; reflexivity.
Qed.

Lemma beginSentence_draw (w : World) : sameDraw w (beginSentence w).
Proof.
  unfold beginSentence.
  eapply sameDraw_trans; [ | apply fetchPair_draw ]. split; reflexivity.
Qed.

Lemma chooseWord_draw (side : Side) (w : World) : sameDraw w (chooseWord side w).
Proof.
  unfold chooseWord.
  destruct (phase (home w)); try apply sameDraw_refl.
  destruct (currentPair (home w)) as [current |]; try apply sameDraw_refl.
  match goal with |- context [if ?c then _ else _] => destruct c end.
  - destruct (prefetchNext_draw (words (home w)) (pick current side)
      (onHome (fun x => setPhase Dissolving (setChosenSide (Some side) x)) w))
      as [H1 H2].
    split; cbn; [ rewrite H1 | rewrite H2 ]; reflexivity.
  - split; reflexivity.
Qed.

Lemma settle_draw (c : string) (ws : list string) (pf : option WordPair) (w : World) :
  sameDraw w (settle c ws pf w).
Proof.
  unfold settle.
  match goal with |- context [if ?c then _ else _] => destruct c end.
  - destruct (negb (Js.endsWithPeriod c)); split; reflexivity.
  - destruct pf.
    + split; reflexivity.
    + eapply sameDraw_trans; [ | apply fetchPair_draw ]. split; reflexivity.
Qed.

Lemma effects_draw (before : Home) (w : World) : sameDraw w (effects before w).
Proof.
  unfold effects.
  match goal with |- context [if ?c then _ else _] => destruct c end.
  - apply beginSentence_draw.
  - apply sameDraw_refl.
Qed.

Lemma handle_draw (w w' : World) (e : Event) :
  handle w e = Some w' -> sameDraw w w'.
Proof.
  destruct e; cbn [handle].
  - destruct (phase_eqb _ _); [ | discriminate ].
    intros [= <-]. split; reflexivity.
  - destruct (phase_eqb _ _); [ | discriminate ].
    intros [= <-]. unfold submitKey.
    destruct (String.eqb _ _); split; reflexivity.
  - destruct (_ && _)%bool; [ | discriminate ].
    intros [= <-]. split; reflexivity.
  - intros [= <-]. apply chooseWord_draw.
  - destruct (phase_eqb _ _); [ | discriminate ].
    intros [= <-]. apply beginSentence_draw.
  - destruct (take id (tasks w)) as [[[who ws | c ws pf] rest] |]; try discriminate.
    intros [= <-].
    eapply sameDraw_trans; [ | apply settle_draw ]. split; reflexivity.
  - destruct (take id (tasks w)) as [[[who ws | c ws pf] rest] |]; try discriminate.
    intros [= <-]. destruct who, (generatePair ws reply); split; reflexivity.
Qed.

(** The target length and the unread random values survive every event:
    nothing but the mount ever draws. *)
Lemma step_keeps_draw (w w' : World) (e : Event) :
  step w e = Some w' -> sameDraw w w'.
Proof.
  unfold step. destruct (handle w e) as [w1 |] eqn:E; [ | discriminate ].
  intros [= <-].
  eapply sameDraw_trans; [ exact (handle_draw _ _ _ E) | apply effects_draw ].
Qed.

Lemma run_keeps_draw (es : list Event) (w w' : World) :
  run es w = Some w' -> sameDraw w w'.
Proof.
  revert w. induction es as [| e es IH]; intros w H; cbn in H.
  - injection H as <-. apply sameDraw_refl.
  - destruct (step w e) as [w1 |] eqn:E; [ | discriminate ].
    eapply sameDraw_trans; [ exact (step_keeps_draw _ _ _ E) | exact (IH _ H) ].
Qed.

Lemma mount_draw (stored : option string) (draw : Z) (future : list Z) :
  targetLength (home (mount stored draw future)) = 8 + draw /\
  entropy (mount stored draw future) = future.
Proof.
  unfold mount.
  match goal with |- context [effects ?h ?x] =>
    destruct (effects_draw h x) as [-> ->] end.
  destruct stored as [key |]; [ destruct (String.eqb key "") | ];
    split; reflexivity.
Qed.

Lemma reachable_targetLength (w : World) :
  Reachable w -> 8 <= targetLength (home w) <= 12.
Proof.
  induction 1 as [stored draw future Hd | w w' e _ IH Hs].
  - destruct (mount_draw stored draw future) as [-> _]. lia.
  - destruct (step_keeps_draw _ _ _ Hs) as [-> _]. exact IH.
Qed.

Lemma run_reachable (es : list Event) (w w' : World) :
  Reachable w -> run es w = Some w' -> Reachable w'.
Proof.
  revert w. induction es as [| e es IH]; intros w Hw H; cbn in H.
  - injection H as <-. exact Hw.
  - destruct (step w e) as [w1 |] eqn:E; [ | discriminate ].
    apply (IH w1); [ | exact H ]. exact (reach_step _ _ _ Hw E).
Qed.

(** ** The prefetch guard *)


















(** ** Choices outside [choosing] *)

Lemma phase_eqb_refl (p : Phase) : phase_eqb p p = true.
Proof. destruct p; reflexivity. Qed.

Lemma phase_eqb_eq (p q : Phase) : phase_eqb p q = true <-> p = q.
Proof. destruct p, q; cbn; split; congruence. Qed.

(** The begin effect does nothing after a render that changed neither the
    key nor the phase. *)
Lemma effects_idle (w w' : World) :
  apiKey (home w') = apiKey (home w) -> phase (home w') = phase (home w) ->
  effects (home w) w' = w'.
Proof.
  intros Hk Hp. unfold effects.
  rewrite Hk, Hp, String.eqb_refl, phase_eqb_refl. reflexivity.
Qed.

(** C10: when the phase is not [choosing], or no current pair is set,
    [chooseWord] returns the world it was given, and so does the whole
    event: words, phase, pairs, chosen side, loading flag, suspended
    handlers and issued requests are all as before. *)
Theorem chooseWord_outside_choosing (w : World) (side : Side) :
  phase (home w) <> Choosing \/ currentPair (home w) = None ->
  chooseWord side w = w /\ step w (Picked side) = Some w.
Proof.
  intros H.
  assert (Hc : chooseWord side w = w).
  { unfold chooseWord. destruct H as [H | H].
    - destruct (phase (home w)); try reflexivity. congruence.
    - rewrite H. destruct (phase (home w)); reflexivity. }
  split; [ exact Hc | ].
  unfold step. cbn [handle]. rewrite Hc.
  now rewrite effects_idle.
Qed.

(** [chooseWord_outside_choosing] for a second key press during the
    pause that follows a choice. *)
Lemma chooseWord_outside_choosing_witness :
  exists w : World,
    run [Answered 0 (replyWith "the" "beneath"); Picked Safe] mounted = Some w /\
    phase (home w) = Dissolving /\
    step w (Picked Leap) = Some w.
Proof.
  eexists. split; [ reflexivity | ]. split; [ reflexivity | ].
  refine (proj2 (chooseWord_outside_choosing _ Leap _)).
  left. discriminate.
Defined.

(** ** The null pair *)

(** C7: every failure of the endpoint or of the filter reaches the
    controller as the null pair ([generatePair] is total and returns
    [None]); in [beginSentence] a null pair raises the key-error flag and
    moves to [key-entry]; in [chooseWord] it only lowers the loading flag,
    leaving the phase, the words and everything else as they were. *)
Theorem null_pair_behaviours :
  (forall ws : list string,
     generatePair ws Rejected = None /\
     generatePair ws NoContent = None /\
     generatePair ws Unparsable = None) /\
  (forall (ws : list string) (raw : RawPair),
     falsy (raw_safe raw) = true \/ falsy (raw_leap raw) = true ->
     generatePair ws (Parsed raw) = None) /\
  (forall (ws : list string) (s l : string),
     In (clean s) (usedWordsOf ws) -> In (clean l) (usedWordsOf ws) ->
     generatePair ws (replyWith s l) = None) /\
  (forall (w w' : World) (id : nat) (ws : list string)
          (rest : list (nat * Task)) (reply : OracleReply),
     take id (tasks w) = Some (AwaitPair ForBegin ws, rest) ->
     generatePair ws reply = None ->
     step w (Answered id reply) = Some w' ->
     keyError (home w') = true /\ phase (home w') = KeyEntry /\
     isLoading (home w') = false /\
     w' = onHome (resumeBegin None) (withTasks rest w)) /\
  (forall (w w' : World) (id : nat) (ws : list string)
          (rest : list (nat * Task)) (reply : OracleReply),
     take id (tasks w) = Some (AwaitPair ForNext ws, rest) ->
     generatePair ws reply = None ->
     step w (Answered id reply) = Some w' ->
     home w' = setIsLoading false (home w) /\
     phase (home w') = phase (home w) /\ words (home w') = words (home w) /\
     isLoading (home w') = false /\ calls w' = calls w /\ tasks w' = rest).
Proof.
  split; [ | split; [ | split; [ | split ] ] ].
  - intros ws. repeat split.
  - intros ws raw H. cbn [generatePair].
    exact (validate_missing raw (usedWordsOf ws) H).
  - intros ws s l Hs Hl. unfold replyWith. cbn [generatePair]. unfold validate.
    cbn [raw_safe raw_leap].
    destruct (falsy (Some s) || falsy (Some l))%bool; [ reflexivity | ].
    apply JsFacts.has_In in Hs, Hl. now rewrite Hs, Hl.
  - intros w w' id ws rest reply Htake Hnull Hstep.
    unfold step in Hstep. cbn [handle] in Hstep.
    rewrite Htake, Hnull in Hstep. cbn [resumePair] in Hstep.
    unfold effects in Hstep. cbn in Hstep.
    rewrite andb_false_r in Hstep. injection Hstep as <-.
    repeat split.
  - intros w w' id ws rest reply Htake Hnull Hstep.
    unfold step in Hstep. cbn [handle] in Hstep.
    rewrite Htake, Hnull in Hstep. cbn [resumePair] in Hstep.
    rewrite effects_idle in Hstep by reflexivity.
    injection Hstep as <-. repeat split.
Qed.

(** [null_pair_behaviours] when the first request of a sentence is
    rejected. *)
Lemma null_pair_behaviours_witness :
  exists w : World,
    step mounted (Answered 0 Rejected) = Some w /\
    keyError (home w) = true /\ phase (home w) = KeyEntry.
Proof.
  eexists. split; [ reflexivity | ].
  destruct (proj1 (proj2 (proj2 (proj2 null_pair_behaviours)))
    mounted _ 0%nat [] [] Rejected eq_refl eq_refl eq_refl) as [H1 [H2 _]].
  split; [ exact H1 | exact H2 ].
Defined.

(** ** Entering [complete] *)

Lemma noSeal_trans (a b c : World) : noSeal a b -> noSeal b c -> noSeal a c.
Proof. unfold noSeal. auto. Qed.

Lemma fetchPair_noSeal (who : Awaiter) (ws : list string) (w : World) :
  noSeal w (fetchPair who ws w).
Proof.
  unfold noSeal, fetchPair. destruct (groqRef (home w)); [ auto | ].
  destruct who; cbn; auto; discriminate.
Qed.

Lemma beginSentence_not_complete (w : World) :
  phase (home (beginSentence w)) <> Complete.
Proof.
  unfold beginSentence, fetchPair. cbn.
  destruct (groqRef (home w)); cbn; discriminate.
Qed.

Lemma prefetchNext_phase (ws : list string) (c : string) (w : World) :
  phase (home (prefetchNext ws c w)) = phase (home w).
Proof.
  unfold prefetchNext, fetchPair. destruct (prefetchRef (home w)); [ reflexivity | ].
  cbn. destruct (groqRef (home w)); reflexivity.
Qed.

Lemma chooseWord_noSeal (side : Side) (w : World) : noSeal w (chooseWord side w).
Proof.
  unfold noSeal, chooseWord.
  destruct (phase (home w)) eqn:Ep; try congruence.
  destruct (currentPair (home w)) as [current |]; try congruence.
  cbn [spawn home].
  match goal with |- context [if ?c then _ else _] => destruct c end.
  - rewrite prefetchNext_phase. cbn. discriminate.
  - cbn. discriminate.
Qed.

Lemma effects_complete (before : Home) (w : World) :
  phase (home (effects before w)) = Complete -> effects before w = w.
Proof.
  unfold effects.
  match goal with |- context [if ?c then _ else _] => destruct c end.
  - intros H. now apply beginSentence_not_complete in H.
  - reflexivity.
Qed.

Lemma handle_noSeal (w w' : World) (e : Event) :
  (forall id : nat, e <> Settled id) -> handle w e = Some w' -> noSeal w w'.
Proof.
  intros He. unfold noSeal. destruct e; cbn [handle].
  - destruct (phase_eqb _ _); [ | discriminate ]. intros [= <-]. auto.
  - destruct (phase_eqb _ _); [ | discriminate ]. intros [= <-].
    unfold submitKey. destruct (String.eqb _ _); cbn; auto; discriminate.
  - destruct (_ && _)%bool; [ | discriminate ]. intros [= <-]. cbn. discriminate.
  - intros [= <-]. apply chooseWord_noSeal.
  - destruct (phase_eqb _ _) eqn:E; [ | discriminate ]. intros _ _.
    now apply phase_eqb_eq.
  - now contradiction (He id).
  - destruct (take id (tasks w)) as [[[who ws | c ws pf] rest] |]; try discriminate.
    intros [= <-]. destruct who, (generatePair ws reply); cbn; auto; discriminate.
Qed.

Lemma setLast_snoc (ws : list string) (c v : string) :
  setLast (ws ++ [c]) v = ws ++ [v].
Proof.
  unfold setLast. destruct (ws ++ [c]) eqn:E.
  - now destruct ws.
  - rewrite <- E, removelast_last. reflexivity.
Qed.

Lemma len_snoc {A : Type} (l : list A) (x : A) : len (l ++ [x]) = len l + 1.
Proof. unfold len. rewrite length_app. cbn. lia. Qed.



(** ** Patient runs keep the sentence within the target *)

Lemma take_In (id : nat) (ts rest : list (nat * Task)) (t : Task) :
  take id ts = Some (t, rest) -> In (id, t) ts.
Proof.
  revert rest. induction ts as [| [i u] ts IH]; intros rest; cbn [take].
  - discriminate.
  - destruct (Nat.eqb i id) eqn:E.
    + intros [= -> ->]. apply Nat.eqb_eq in E. subst. now left.
    + destruct (take id ts) as [[found rest'] |]; [ | discriminate ].
      intros [= -> <-]. right. now apply (IH rest').
Qed.

Lemma take_Forall (P : nat * Task -> Prop) (id : nat)
    (ts rest : list (nat * Task)) (t : Task) :
  take id ts = Some (t, rest) -> Forall P ts -> P (id, t) /\ Forall P rest.
Proof.
  revert rest. induction ts as [| [i u] ts IH]; intros rest; cbn [take].
  - discriminate.
  - destruct (Nat.eqb i id) eqn:E.
    + intros [= -> ->] H. apply Nat.eqb_eq in E. subst.
      inversion H as [| x l Hx Hl]; subst. auto.
    + destruct (take id ts) as [[found rest'] |]; [ | discriminate ].
      intros [= -> <-] H. inversion H as [| x l Hx Hl]; subst.
      destruct (IH rest' eq_refl Hl) as [G1 G2]. auto.
Qed.

Lemma foreground_cons (i : nat) (u : Task) (ts : list (nat * Task)) :
  length (filter foreground ((i, u) :: ts)) =
    ((if awaitsPrefetch u then 0 else 1) + length (filter foreground ts))%nat.
Proof.
  cbn [filter]. unfold foreground at 1, isPrefetch. cbn [snd].
  destruct (awaitsPrefetch u); reflexivity.
Qed.

Lemma take_foreground (id : nat) (ts rest : list (nat * Task)) (t : Task) :
  take id ts = Some (t, rest) ->
  length (filter foreground ts) =
    ((if awaitsPrefetch t then 0 else 1) + length (filter foreground rest))%nat.
Proof.
  revert rest. induction ts as [| [i u] ts IH]; intros rest; cbn [take].
  - discriminate.
  - rewrite foreground_cons. destruct (Nat.eqb i id) eqn:E.
    + intros [= -> ->]. reflexivity.
    + destruct (take id ts) as [[found rest'] |]; [ | discriminate ].
      intros [= -> <-]. rewrite (IH rest' eq_refl), foreground_cons. lia.
Qed.

Lemma no_foreground (ts : list (nat * Task)) :
  length (filter foreground ts) = 0%nat ->
  Forall (fun entry => isPrefetch entry = true) ts.
Proof.
  induction ts as [| e ts IH]; cbn [filter]; [ constructor | ].
  unfold foreground at 1. destruct (isPrefetch e) eqn:E; cbn [negb length].
  - intros H. constructor; auto.
  - discriminate.
Qed.

Lemma all_prefetch_foreground (ts : list (nat * Task)) :
  Forall (fun entry => isPrefetch entry = true) ts ->
  length (filter foreground ts) = 0%nat.
Proof.
  induction 1 as [| e ts He _ IH]; cbn [filter]; [ reflexivity | ].
  unfold foreground at 1. rewrite He. exact IH.
Qed.

Lemma prefetch_fits (ws : list string) (T : Z) (ts : list (nat * Task)) :
  Forall (fun entry => isPrefetch entry = true) ts ->
  Forall (fun entry => fits ws T (snd entry)) ts.
Proof.
  apply Forall_impl. intros [i t]. unfold isPrefetch. cbn [snd].
  destruct t as [[| |] ws' | c ws' pf]; cbn; try discriminate. trivial.
Qed.

Lemma prefetch_quiet (ts : list (nat * Task)) :
  Forall (fun entry => isPrefetch entry = true) ts ->
  Forall (fun entry => (isPrefetch entry || awaitsBegin (snd entry))%bool = true) ts.
Proof.
  apply Forall_impl. intros e ->. reflexivity.
Qed.

Lemma idle_all_prefetch (w : World) :
  idle w = true -> Forall (fun entry => isPrefetch entry = true) (tasks w).
Proof.
  unfold idle. rewrite forallb_forall, Forall_forall. auto.
Qed.

(** Outside the pause of a choice every suspended handler is a prefetch
    or a [beginSentence]. *)
Lemma shape_quiet (ws : list string) (ph : Phase) (T : Z) (ts : list (nat * Task)) :
  Shape ws ph T ts -> ph <> Dissolving ->
  Forall (fun entry => (isPrefetch entry || awaitsBegin (snd entry))%bool = true) ts.
Proof.
  intros [H | _ _ H | Hd _ _] Hph.
  - now apply prefetch_quiet.
  - exact H.
  - contradiction.
Qed.

Lemma prefetchNext_view (cw : list string) (c : string) (w : World) :
  words (home (prefetchNext cw c w)) = words (home w) /\
  phase (home (prefetchNext cw c w)) = phase (home w) /\
  targetLength (home (prefetchNext cw c w)) = targetLength (home w) /\
  exists extra : list (nat * Task),
    Forall (fun entry => isPrefetch entry = true) extra /\
    tasks (prefetchNext cw c w) = tasks w ++ extra.
Proof.
  unfold prefetchNext, fetchPair.
  destruct (prefetchRef (home w)).
  - repeat split. exists []. split; [ constructor | now rewrite app_nil_r ].
  - cbn. destruct (groqRef (home w)); cbn; repeat split.
    + eexists [_]. split; [ | reflexivity ]. constructor; [ reflexivity | constructor ].
    + exists []. split; [ constructor | now rewrite app_nil_r ].
Qed.

Lemma beginSentence_calm (w : World) :
  8 <= targetLength (home w) <= 12 ->
  Forall (fun entry => (isPrefetch entry || awaitsBegin (snd entry))%bool = true) (tasks w) ->
  calmInvariant (beginSentence w).
Proof.
  intros HT Hq. unfold calmInvariant, beginSentence, fetchPair. cbn.
  destruct (groqRef (home w)); cbn.
  - constructor; try (unfold len; cbn; lia); try discriminate.
    apply shape_beginning; [ reflexivity | discriminate | ].
    apply Forall_app. split; [ exact Hq | ]. constructor; [ reflexivity | constructor ].
  - constructor; try (unfold len; cbn; lia); try discriminate.
    apply shape_beginning; [ reflexivity | discriminate | exact Hq ].
Qed.

Lemma effects_calm (before : Home) (w : World) :
  calmInvariant w -> calmInvariant (effects before w).
Proof.
  intros Hw. unfold effects.
  match goal with |- context [if ?c then _ else _] => destruct c eqn:E end;
    [ | exact Hw ].
  apply andb_prop in E. destruct E as [_ E]. apply phase_eqb_eq in E.
  destruct Hw as [HT _ _ _ Hs].
  apply beginSentence_calm; [ exact HT | ].
  apply (shape_quiet _ _ _ _ Hs). rewrite E. discriminate.
Qed.

(** A world that differs from a bounded idle one in its phase only, the
    new phase being neither [choosing] nor [complete]. *)
Lemma rephase_calm (w w1 : World) :
  calmInvariant w -> idle w = true ->
  words (home w1) = words (home w) ->
  targetLength (home w1) = targetLength (home w) ->
  tasks w1 = tasks w ->
  (phase (home w1) = phase (home w) \/
   phase (home w1) = Waiting \/ phase (home w1) = KeyEntry) ->
  calmInvariant w1.
Proof.
  intros [HT Hl Hc Hd _] Hidle Hw HTe Ht Hp. unfold calmInvariant.
  rewrite Hw, HTe, Ht.
  constructor; auto.
  - destruct Hp as [-> | [-> | ->]]; auto; discriminate.
  - destruct Hp as [-> | [-> | ->]]; auto; discriminate.
  - apply shape_idle. now apply idle_all_prefetch.
Qed.

Lemma chooseWord_calm (side : Side) (w : World) :
  calmInvariant w -> idle w = true -> calmInvariant (chooseWord side w).
Proof.
  intros Hw Hidle. unfold chooseWord.
  destruct (phase (home w)) eqn:Ep; try exact Hw.
  destruct (currentPair (home w)) as [current |]; try exact Hw.
  destruct Hw as [HT Hl Hc _ _]. rewrite Ep in Hc. specialize (Hc eq_refl).
  set (w1 := onHome (fun x => setPhase Dissolving (setChosenSide (Some side) x)) w).
  assert (Hview : exists w2 : World,
    (if len (words (home w) ++ [pick current side]) <? targetLength (home w)
     then prefetchNext (words (home w)) (pick current side) w1 else w1) = w2 /\
    words (home w2) = words (home w) /\ phase (home w2) = Dissolving /\
    targetLength (home w2) = targetLength (home w) /\
    exists extra : list (nat * Task),
      Forall (fun entry => isPrefetch entry = true) extra /\
      tasks w2 = tasks w ++ extra).
  { eexists. split; [ reflexivity | ].
    match goal with |- context [if ?c then _ else _] => destruct c end.
    - destruct (prefetchNext_view (words (home w)) (pick current side) w1)
        as (V1 & V2 & V3 & V4).
      rewrite V1, V2, V3. repeat split. exact V4.
    - repeat split. exists []. split; [ constructor | now rewrite app_nil_r ]. }
  destruct Hview as (w2 & -> & V1 & V2 & V3 & extra & Hextra & V4).
  unfold calmInvariant. cbn [spawn home tasks]. rewrite V1, V2, V3, V4.
  pose proof (idle_all_prefetch w Hidle) as Hall.
  constructor; auto; try discriminate.
  apply shape_choosing; [ reflexivity | | ].
  - rewrite !filter_app, !length_app.
    rewrite (all_prefetch_foreground _ Hall), (all_prefetch_foreground _ Hextra).
    reflexivity.
  - rewrite !Forall_app. repeat split.
    + now apply prefetch_fits.
    + now apply prefetch_fits.
    + constructor; [ exact Hc | constructor ].
Qed.

Lemma settle_calm (c : string) (ws : list string) (pf : option WordPair) (w : World) :
  8 <= targetLength (home w) <= 12 ->
  phase (home w) = Dissolving ->
  Forall (fun entry => isPrefetch entry = true) (tasks w) ->
  len ws < targetLength (home w) ->
  calmInvariant (settle c ws pf w).
Proof.
  intros HT Hph Hall Hfit. unfold settle. cbn [onHome home targetLength setWords].
  destruct (targetLength (home w) <=? len (ws ++ [c])) eqn:Efull;
    destruct (Js.endsWithPeriod c) eqn:Edot; cbn [orb negb].
  - unfold calmInvariant. cbn. constructor; auto; try discriminate.
    + rewrite len_snoc. lia.
    + intros _. exists ws, c. auto.
    + now apply shape_idle.
  - unfold calmInvariant. cbn. rewrite setLast_snoc.
    constructor; auto; try discriminate.
    + rewrite len_snoc. lia.
    + intros _. exists ws, (c ++ ".")%string.
      split; [ reflexivity | apply JsFacts.endsWithPeriod_append ].
    + now apply shape_idle.
  - unfold calmInvariant. cbn. constructor; auto; try discriminate.
    + rewrite len_snoc. lia.
    + intros _. exists ws, c. auto.
    + now apply shape_idle.
  - assert (Hshort : len (ws ++ [c]) < targetLength (home w)) by lia.
    destruct pf as [p |].
    + unfold calmInvariant. cbn. constructor; auto; try discriminate; try lia.
      now apply shape_idle.
    + unfold calmInvariant, fetchPair. cbn.
      destruct (groqRef (home w)); cbn; rewrite Hph.
      * constructor; auto; try discriminate; try lia.
        apply shape_choosing; [ reflexivity | | ].
        -- rewrite filter_app, length_app, (all_prefetch_foreground _ Hall).
           reflexivity.
        -- apply Forall_app. split; [ now apply prefetch_fits | ].
           constructor; [ exact Hshort | constructor ].
      * constructor; auto; try discriminate; try lia.
        now apply shape_idle.
Qed.

Lemma awaitsBegin_not_prefetch (i : nat) (who : Awaiter) (ws : list string) :
  isPrefetch (i, AwaitPair who ws) = true -> who = ForPrefetch.
Proof. destruct who; cbn; congruence. Qed.

Lemma handle_calm (w w' : World) (e : Event) :
  calmInvariant w -> (userEvent e = true -> idle w = true) ->
  handle w e = Some w' -> calmInvariant w'.
Proof.
  intros Hw Hidle. destruct e; cbn [handle userEvent] in *.
  - destruct (phase_eqb _ _); [ | discriminate ]. intros [= <-]. exact Hw.
  - destruct (phase_eqb _ _); [ | discriminate ]. intros [= <-].
    unfold submitKey. destruct (String.eqb _ _); [ exact Hw | ].
    apply (rephase_calm w); auto.
  - destruct (_ && _)%bool; [ | discriminate ]. intros [= <-].
    apply (rephase_calm w); auto.
  - intros [= <-]. apply chooseWord_calm; auto.
  - destruct (phase_eqb _ _); [ | discriminate ]. intros [= <-].
    destruct Hw as [HT _ _ _ _].
    apply beginSentence_calm; [ exact HT | ].
    apply prefetch_quiet, idle_all_prefetch. auto.
  - destruct (take id (tasks w)) as [[[who ws | c ws pf] rest] |] eqn:Et;
      try discriminate.
    intros [= <-]. destruct Hw as [HT _ _ _ Hs].
    pose proof (take_foreground _ _ _ _ Et) as Hcount. cbn [awaitsPrefetch] in Hcount.
    destruct Hs as [Hall | _ _ Hq | Hph Hone Hfits].
    + apply (take_Forall _ _ _ _ _ Et) in Hall. destruct Hall as [Hbad _].
      discriminate.
    + apply (take_Forall _ _ _ _ _ Et) in Hq. destruct Hq as [Hbad _].
      discriminate.
    + apply (take_Forall _ _ _ _ _ Et) in Hfits. destruct Hfits as [Hfit _].
      cbn [fits snd] in Hfit.
      apply settle_calm; cbn [withTasks home tasks]; auto.
      apply no_foreground. lia.
  - destruct (take id (tasks w)) as [[[who ws | c ws pf] rest] |] eqn:Et;
      try discriminate.
    intros [= <-]. destruct Hw as [HT Hl Hc Hd Hs].
    pose proof (take_foreground _ _ _ _ Et) as Hcount.
    unfold calmInvariant. destruct who.
    + (* beginSentence resumes *)
      destruct Hs as [Hall | Hnil Hnc Hq | Hph Hone Hfits].
      * apply (take_Forall _ _ _ _ _ Et) in Hall. destruct Hall as [Hbad _].
        discriminate.
      * apply (take_Forall _ _ _ _ _ Et) in Hq. destruct Hq as [_ Hq].
        destruct (generatePair ws reply); cbn; rewrite Hnil;
          (constructor; auto; try discriminate; try (unfold len; cbn; lia);
           apply shape_beginning; [ reflexivity | discriminate | exact Hq ]).
      * apply (take_Forall _ _ _ _ _ Et) in Hfits. destruct Hfits as [[] _].
    + (* chooseWord resumes after its fetch *)
      destruct Hs as [Hall | Hnil Hnc Hq | Hph Hone Hfits].
      * apply (take_Forall _ _ _ _ _ Et) in Hall. destruct Hall as [Hbad _].
        discriminate.
      * apply (take_Forall _ _ _ _ _ Et) in Hq. destruct Hq as [Hbad _].
        discriminate.
      * apply (take_Forall _ _ _ _ _ Et) in Hfits. destruct Hfits as [Hfit _].
        cbn [fits snd] in Hfit. cbn [awaitsPrefetch] in Hcount.
        assert (Hrest : Forall (fun entry => isPrefetch entry = true) rest)
          by (apply no_foreground; lia).
        destruct (generatePair ws reply); cbn.
        -- constructor; auto; try discriminate. now apply shape_idle.
        -- rewrite Hph. constructor; auto; try discriminate. now apply shape_idle.
    + (* prefetchNext resumes *)
      cbn [awaitsPrefetch] in Hcount. cbn.
      constructor; auto.
      destruct Hs as [Hall | Hnil Hnc Hq | Hph Hone Hfits].
      * apply shape_idle. now apply (take_Forall _ _ _ _ _ Et) in Hall.
      * apply shape_beginning; auto. now apply (take_Forall _ _ _ _ _ Et) in Hq.
      * apply shape_choosing; auto; [ lia | ].
        now apply (take_Forall _ _ _ _ _ Et) in Hfits.
Qed.

Lemma step_calm (w w' : World) (e : Event) :
  calmInvariant w -> (userEvent e = true -> idle w = true) ->
  step w e = Some w' -> calmInvariant w'.
Proof.
  intros Hw Hidle. unfold step.
  destruct (handle w e) as [w1 |] eqn:E; [ | discriminate ].
  intros [= <-]. apply effects_calm. exact (handle_calm _ _ _ Hw Hidle E).
Qed.

Lemma mount_calm (stored : option string) (draw : Z) (future : list Z) :
  0 <= draw <= 4 -> calmInvariant (mount stored draw future).
Proof.
  intros Hd. unfold mount. apply effects_calm.
  destruct stored as [key |]; [ destruct (String.eqb key "") | ];
    unfold calmInvariant; cbn -[Z.add];
    (constructor; try discriminate; try (unfold len; cbn -[Z.add]; lia);
     apply shape_idle; constructor).
Qed.

Lemma calm_reachable_invariant (w : World) : CalmReachable w -> calmInvariant w.
Proof.
  induction 1 as [stored draw future Hd | w w' e _ IH Hidle Hs].
  - now apply mount_calm.
  - exact (step_calm _ _ _ IH Hidle Hs).
Qed.


Lemma calm_reachable_reachable (w : World) : CalmReachable w -> Reachable w.
Proof.
  induction 1 as [stored draw future Hd | w w' e _ IH _ Hs].
  - now apply reach_mount.
  - exact (reach_step _ _ _ IH Hs).
Qed.

(** The sealing rule: from a world that is not in [complete], the end of
    the pause leads to [complete] exactly when the captured words and the
    chosen word reach the target length or the chosen word ends with a
    period. *)
Lemma settle_seals_exactly_when (c : string) (ws : list string)
    (pf : option WordPair) (w : World) :
  phase (home w) <> Complete ->
  (phase (home (settle c ws pf w)) = Complete <->
   targetLength (home w) <= len ws + 1 \/ Js.endsWithPeriod c = true).
Proof.
  intros Hnot. unfold settle. cbn [onHome home targetLength setWords].
  rewrite len_snoc.
  destruct (targetLength (home w) <=? len ws + 1) eqn:Efull;
    destruct (Js.endsWithPeriod c) eqn:Edot; cbn [orb negb].
  - cbn. split; auto.
  - cbn. split; [ intros _; left; lia | reflexivity ].
  - cbn. split; auto.
  - split.
    + destruct pf as [p |]; [ cbn; discriminate | ].
      intros H. apply fetchPair_noSeal in H. cbn in H. contradiction.
    + intros [H | H]; [ lia | discriminate ].
Qed.





(** ** Beginning again *)

Lemma beginSentence_fields (w : World) :
  words (home (beginSentence w)) = [] /\
  chosenSide (home (beginSentence w)) = None /\
  prefetchedPair (home (beginSentence w)) = None /\
  phase (home (beginSentence w))
    = match groqRef (home w) with Some _ => Waiting | None => KeyEntry end /\
  groqRef (home (beginSentence w)) = groqRef (home w).
Proof.
  unfold beginSentence, fetchPair. cbn.
  destruct (groqRef (home w)) eqn:E; cbn; repeat split; auto.
Qed.

(** C4, as amended: beginning again from [complete] empties the sentence
    and clears the chosen side and the prefetched pair; the phase becomes
    [waiting] when a client is held (without one the fetch fails at once
    and the phase is [key-entry]); the target length is not drawn again:
    it keeps the value drawn at the mount, between 8 and 12, and no random
    value is read. *)
Theorem restart_resets_sentence (w w' : World) :
  Reachable w -> phase (home w) = Complete -> step w BeginAgain = Some w' ->
  words (home w') = [] /\
  chosenSide (home w') = None /\
  prefetchedPair (home w') = None /\
  phase (home w')
    = match groqRef (home w) with Some _ => Waiting | None => KeyEntry end /\
  targetLength (home w') = targetLength (home w) /\
  8 <= targetLength (home w') <= 12 /\
  entropy w' = entropy w.
Proof.
  intros Hr Hp Hstep.
  destruct (step_keeps_draw _ _ _ Hstep) as [HT He].
  pose proof (reachable_targetLength w Hr) as Hrange.
  unfold step in Hstep. cbn [handle] in Hstep.
  rewrite Hp in Hstep. cbn [phase_eqb] in Hstep.
  injection Hstep as <-.
  destruct (beginSentence_fields w) as (H1 & H2 & H3 & H4 & H5).
  assert (Hfields :
    words (home (effects (home w) (beginSentence w))) = [] /\
    chosenSide (home (effects (home w) (beginSentence w))) = None /\
    prefetchedPair (home (effects (home w) (beginSentence w))) = None /\
    phase (home (effects (home w) (beginSentence w)))
      = match groqRef (home w) with Some _ => Waiting | None => KeyEntry end).
  { unfold effects.
    match goal with |- context [if ?c then _ else _] => destruct c end.
    - destruct (beginSentence_fields (beginSentence w)) as (G1 & G2 & G3 & G4 & _).
      rewrite H5 in G4. auto.
    - auto. }
  destruct Hfields as (F1 & F2 & F3 & F4).
  repeat split; try assumption; lia.
Qed.

(** [restart_resets_sentence] after a one-word sentence. *)
Lemma restart_resets_sentence_witness :
  exists w w' : World,
    run [Answered 0 (replyWith "rain." "sun."); Picked Safe; Settled 2] mounted
      = Some w /\
    phase (home w) = Complete /\
    step w BeginAgain = Some w' /\
    words (home w') = [] /\ phase (home w') = Waiting /\
    targetLength (home w') = targetLength (home w).
Proof.
  pose (w := mkWorld
    (mkHome ["rain."] Complete (Some (mkPair "rain." "sun.")) None (Some Safe)
       8 false 1 "gsk" "" false true (Some "gsk"))
    [(1%nat, AwaitPair ForPrefetch ["rain."])]
    3 [[]; ["rain."]] (Some "gsk") []).
  pose (w' := mkWorld
    (mkHome [] Waiting (Some (mkPair "rain." "sun.")) None None
       8 true 1 "gsk" "" false true (Some "gsk"))
    [(1%nat, AwaitPair ForPrefetch ["rain."]); (3%nat, AwaitPair ForBegin []);
     (4%nat, AwaitPair ForBegin [])]
    5 [[]; ["rain."]; []; []] (Some "gsk") []).
  assert (Hrun : run [Answered 0 (replyWith "rain." "sun."); Picked Safe; Settled 2]
                   mounted = Some w) by (vm_compute; reflexivity).
  assert (Hreach : Reachable w).
  { refine (run_reachable _ mounted w _ Hrun).
    apply (reach_mount (Some "gsk") 0 []). lia. }
  assert (Hstep : step w BeginAgain = Some w') by (vm_compute; reflexivity).
  destruct (restart_resets_sentence w w' Hreach eq_refl Hstep)
    as (Hw & _ & _ & Hp & HT & _).
  exists w, w'.
  split; [ exact Hrun | ]. split; [ reflexivity | ]. split; [ exact Hstep | ].
  split; [ exact Hw | ]. split; [ exact Hp | exact HT ].
Defined.

(** C4 fails as stated: with the target length drawn as 8 at the mount
    and 4 the next random value, the sentence begun again still has the
    target 8, not 8 + 4, and the 4 has not been read. *)
Lemma restart_draws_no_target_length :
  drawAfter [Answered 0 (replyWith "rain." "sun."); Picked Safe; Settled 2]
      (mount (Some "gsk") 0 [4])
    = Some (Complete, 8, [4]) /\
  drawAfter [Answered 0 (replyWith "rain." "sun."); Picked Safe; Settled 2; BeginAgain]
      (mount (Some "gsk") 0 [4])
    = Some (Waiting, 8, [4]) /\
  8 <> 8 + 4.
Proof.
  split; [ vm_compute; reflexivity | ].
  split; [ vm_compute; reflexivity | discriminate ].
Qed.

(** ** Two runs the controller should not allow *)

(** C2 does not hold of the code.  After [prefetchRun] the sentence is
    "the rain", the request made for it is still unanswered, and the
    current pair is the one the endpoint returned for "the" alone; it
    offers "rain" again, which the filter for the sentence as it stands
    would have replaced.  At the first [Settled] the pair prefetched for
    "the" was already there, and a second request for "the" went out all the
    same. *)
Theorem stale_prefetch_is_adopted :
  run (firstn 4 prefetchRun) mounted =
    Some (mkWorld
      (mkHome ["the"] Dissolving (Some (mkPair "the" "beneath"))
         (Some (mkPair "rain" "falls")) None 8 true 0 "gsk" "" false false
         (Some "gsk"))
      [(3%nat, AwaitPair ForNext ["the"])]
      4 [[]; ["the"]; ["the"]] (Some "gsk") []) /\
  run prefetchRun mounted =
    Some (mkWorld
      (mkHome ["the"; "rain"] Choosing (Some (mkPair "rain" "falls"))
         None None 8 false 0 "gsk" "" false true (Some "gsk"))
      [(4%nat, AwaitPair ForPrefetch ["the"; "rain"])]
      6 [[]; ["the"]; ["the"]; ["the"; "rain"]] (Some "gsk") []) /\
  generatePair ["the"; "rain"] (replyWith "rain" "falls")
    = Some (mkPair "falls" "falls") /\
  outcome (prefetchRun ++ [Picked Safe; Settled 6]) mounted
    = Some (Dissolving, ["the"; "rain"; "rain"], Some (mkPair "rain" "falls")).
Proof.
  split; [ vm_compute; reflexivity | ].
  split; [ vm_compute; reflexivity | ].
  split; vm_compute; reflexivity.
Qed.

(** C6 does not hold of the code: the restart issues two first requests,
    and when the second is answered after the sentence is complete the
    phase goes back to [choosing]; the next choice makes a sentence of
    nine words against a target of eight. *)
Theorem late_reply_overfills_sentence :
  targetLength (home mounted) = 8 /\
  outcome (firstn 4 lateReplyRun) mounted
    = Some (Waiting, [], Some (mkPair "rain." "sun.")) /\
  option_map tasks (run (firstn 4 lateReplyRun) mounted)
    = Some [(1%nat, AwaitPair ForPrefetch ["rain."]);
            (3%nat, AwaitPair ForBegin []); (4%nat, AwaitPair ForBegin [])] /\
  outcome (firstn 28 lateReplyRun) mounted
    = Some (Complete,
            ["the"; "morning"; "forgot"; "itself"; "and"; "became";
             "something"; "like."],
            Some (mkPair "like" "beyond")) /\
  outcome (firstn 29 lateReplyRun) mounted
    = Some (Choosing,
            ["the"; "morning"; "forgot"; "itself"; "and"; "became";
             "something"; "like."],
            Some (mkPair "forgiveness" "salt")) /\
  outcome lateReplyRun mounted
    = Some (Complete,
            ["the"; "morning"; "forgot"; "itself"; "and"; "became";
             "something"; "like."; "forgiveness."],
            Some (mkPair "forgiveness" "salt")) /\
  len ["the"; "morning"; "forgot"; "itself"; "and"; "became";
       "something"; "like."; "forgiveness."] = 9.
Proof.
  repeat (split; [ vm_compute; reflexivity | ]). vm_compute. reflexivity.
Qed.

(* ===================================================================== *)
(** * Further properties of the controller *)
(* ===================================================================== *)

(** ** Fields the common handlers leave alone *)

Section HomeFrame.

Context {A : Type} (field : Home -> A).

(** [field] is untouched by the setters that [fetchPair], [prefetchNext],
    [beginSentence], [chooseWord] and the pause's end use, the sentence
    counter apart. *)
Hypothesis field_setWords : forall v h, field (setWords v h) = field h.
Hypothesis field_setPhase : forall v h, field (setPhase v h) = field h.
Hypothesis field_setCurrentPair : forall v h, field (setCurrentPair v h) = field h.
Hypothesis field_setPrefetchedPair : forall v h, field (setPrefetchedPair v h) = field h.
Hypothesis field_setChosenSide : forall v h, field (setChosenSide v h) = field h.
Hypothesis field_setIsLoading : forall v h, field (setIsLoading v h) = field h.
Hypothesis field_setKeyError : forall v h, field (setKeyError v h) = field h.
Hypothesis field_setPrefetchRef : forall v h, field (setPrefetchRef v h) = field h.

Lemma frame_resumePair (who : Awaiter) (pair : option WordPair) (h : Home) :
  field (resumePair who pair h) = field h.
Proof.
  destruct who, pair as [p |];
    unfold resumePair, resumeBegin, resumeNext, resumePrefetch;
    rewrite ?field_setIsLoading, ?field_setPhase, ?field_setCurrentPair,
      ?field_setKeyError, ?field_setPrefetchRef, ?field_setPrefetchedPair;
    reflexivity.
Qed.

Lemma frame_fetchPair (who : Awaiter) (ws : list string) (w : World) :
  field (home (fetchPair who ws w)) = field (home w).
Proof.
  unfold fetchPair. destruct (groqRef (home w)); cbn [onHome spawn request home].
  - reflexivity.
  - apply frame_resumePair.
Qed.

Lemma frame_prefetchNext (ws : list string) (c : string) (w : World) :
  field (home (prefetchNext ws c w)) = field (home w).
Proof.
  unfold prefetchNext. destruct (prefetchRef (home w)); [ reflexivity | ].
  rewrite frame_fetchPair. cbn [onHome home]. apply field_setPrefetchRef.
Qed.

Lemma frame_beginSentence (w : World) :
  field (home (beginSentence w)) = field (home w).
Proof.
  unfold beginSentence. rewrite frame_fetchPair. cbn [onHome home].
  now rewrite field_setIsLoading, field_setPrefetchedPair, field_setChosenSide,
    field_setPhase, field_setWords.
Qed.

Lemma frame_chooseWord (side : Side) (w : World) :
  field (home (chooseWord side w)) = field (home w).
Proof.
  unfold chooseWord. destruct (phase (home w)); try reflexivity.
  destruct (currentPair (home w)) as [current |]; try reflexivity.
  cbn [spawn home].
  match goal with |- context [if ?c then _ else _] => destruct c end;
    rewrite ?frame_prefetchNext; cbn [onHome home];
    now rewrite field_setPhase, field_setChosenSide.
Qed.

Lemma frame_effects (before : Home) (w : World) :
  field (home (effects before w)) = field (home w).
Proof.
  unfold effects.
  match goal with |- context [if ?c then _ else _] => destruct c end;
    [ apply frame_beginSentence | reflexivity ].
Qed.

(** The end of the pause, for a field the counter's setter leaves alone
    too. *)
Lemma frame_settle (c : string) (ws : list string) (pf : option WordPair) (w : World) :
  (forall g h, field (setSentenceCount g h) = field h) ->
  field (home (settle c ws pf w)) = field (home w).
Proof.
  intros field_setSentenceCount. unfold settle.
  match goal with |- context [if ?c then _ else _] => destruct c end.
  - destruct (negb (Js.endsWithPeriod c)); cbn [onHome home];
      now rewrite field_setSentenceCount, field_setPhase, ?field_setWords.
  - destruct pf as [p |].
    + cbn [onHome home].
      now rewrite field_setPhase, field_setPrefetchedPair, field_setCurrentPair,
        field_setChosenSide, field_setWords.
    + rewrite frame_fetchPair. cbn [onHome home].
      now rewrite field_setIsLoading, field_setChosenSide, field_setWords.
Qed.

End HomeFrame.

(** ** The key and the client *)

Lemma step_keeps_key (w w' : World) (e : Event) :
  step w e = Some w' ->
  e <> KeySubmitted -> e <> KeyForgotten ->
  apiKey (home w') = apiKey (home w) /\ groqRef (home w') = groqRef (home w).
Proof.
  unfold step. destruct (handle w e) as [w1 |] eqn:E; [ | discriminate ].
  intros [= <-] Hs Hf.
  rewrite (frame_effects apiKey), (frame_effects groqRef) by reflexivity.
  destruct e; cbn [handle] in E; try congruence.
  - destruct (phase_eqb _ _); [ | discriminate ]. injection E as <-. auto.
  - injection E as <-.
    rewrite (frame_chooseWord apiKey), (frame_chooseWord groqRef) by reflexivity.
    auto.
  - destruct (phase_eqb _ _); [ | discriminate ]. injection E as <-.
    rewrite (frame_beginSentence apiKey), (frame_beginSentence groqRef) by reflexivity.
    auto.
  - destruct (take id (tasks w)) as [[[who ws | c ws pf] rest] |]; try discriminate.
    injection E as <-.
    rewrite (frame_settle apiKey), (frame_settle groqRef) by reflexivity. auto.
  - destruct (take id (tasks w)) as [[[who ws | c ws pf] rest] |]; try discriminate.
    injection E as <-. cbn [onHome home withTasks].
    rewrite (frame_resumePair apiKey), (frame_resumePair groqRef) by reflexivity.
    auto.
Qed.

Lemma step_clientMatchesKey (w w' : World) (e : Event) :
  clientMatchesKey (home w) -> step w e = Some w' -> clientMatchesKey (home w').
Proof.
  intros Hw Hstep.
  assert (Hcases : e = KeySubmitted \/ e = KeyForgotten \/
                   (e <> KeySubmitted /\ e <> KeyForgotten)).
  { destruct e; auto; right; right; split; discriminate. }
  destruct Hcases as [-> | [-> | [Hs Hf]]].
  - unfold step in Hstep. cbn [handle] in Hstep.
    destruct (phase_eqb _ _); [ | discriminate ]. injection Hstep as <-.
    unfold clientMatchesKey.
    rewrite (frame_effects apiKey), (frame_effects groqRef) by reflexivity.
    unfold submitKey. destruct (String.eqb (Js.trim _) "") eqn:Et; [ exact Hw | ].
    cbn. now rewrite Et.
  - unfold step in Hstep. cbn [handle] in Hstep.
    destruct (_ && _)%bool; [ | discriminate ]. injection Hstep as <-.
    unfold clientMatchesKey.
    rewrite (frame_effects apiKey), (frame_effects groqRef) by reflexivity.
    reflexivity.
  - destruct (step_keeps_key _ _ _ Hstep Hs Hf) as [Hk Hg].
    unfold clientMatchesKey. now rewrite Hk, Hg.
Qed.

Lemma reachable_clientMatchesKey (w : World) :
  Reachable w -> clientMatchesKey (home w).
Proof.
  induction 1 as [stored draw future Hd | w w' e _ IH Hs].
  - unfold mount, clientMatchesKey.
    rewrite (frame_effects apiKey), (frame_effects groqRef) by reflexivity.
    destruct stored as [key |]; [ destruct (String.eqb key "") eqn:Ek | ];
      cbn -[Z.add]; try reflexivity. now rewrite Ek.
  - exact (step_clientMatchesKey _ _ _ IH Hs).
Qed.

(** X1: in every reachable world the client in [groqRef] is the one built
    from the key in [apiKey], and no client is held without a key: a key
    is held exactly when a client is, and the two go together through
    [submitKey], [clearKey] and the recall of a stored key. *)
Theorem key_and_client_agree (w : World) :
  Reachable w ->
  clientMatchesKey (home w) /\
  (apiKey (home w) = "" <-> groqRef (home w) = None).
Proof.
  intros Hr. pose proof (reachable_clientMatchesKey w Hr) as H.
  split; [ exact H | ]. unfold clientMatchesKey in H. rewrite H.
  destruct (String.eqb_spec (apiKey (home w)) ""); split; congruence.
Qed.

(** [key_and_client_agree] after a key has been typed and submitted. *)
Lemma key_and_client_agree_witness :
  exists w : World,
    run [KeyTyped " gsk_1 "; KeySubmitted] (mount None 2 []) = Some w /\
    apiKey (home w) = "gsk_1" /\ groqRef (home w) = Some "gsk_1".
Proof.
  pose (w := mkWorld
    (mkHome [] Waiting None None None 10 true 0 "gsk_1" " gsk_1 " false false
       (Some "gsk_1"))
    [(0%nat, AwaitPair ForBegin [])] 1 [[]] (Some "gsk_1") []).
  assert (Hrun : run [KeyTyped " gsk_1 "; KeySubmitted] (mount None 2 []) = Some w)
    by (vm_compute; reflexivity).
  assert (Hreach : Reachable w).
  { refine (run_reachable _ (mount None 2 []) w _ Hrun).
    apply (reach_mount None 2 []). lia. }
  exists w. split; [ exact Hrun | ]. split; [ reflexivity | ].
  destruct (key_and_client_agree w Hreach) as [H _]. exact H.
Defined.

(** ** The requests that leave *)

Lemma Sends_refl (w : World) : Sends w w.
Proof.
  split; [ reflexivity | ]. split; [ reflexivity | ].
  exists []. rewrite app_nil_r. auto.
Qed.

Lemma Sends_trans (a b c : World) : Sends a b -> Sends b c -> Sends a c.
Proof.
  intros (G1 & T1 & x1 & C1 & N1 & F1) (G2 & T2 & x2 & C2 & N2 & F2).
  split; [ congruence | ]. split; [ congruence | ].
  exists (x1 ++ x2). split; [ | split ].
  - rewrite C2, C1. now rewrite app_assoc.
  - intros H. rewrite (N1 H). rewrite N2 by congruence. reflexivity.
  - apply Forall_app. split; [ exact F1 | ]. now rewrite <- T1.
Qed.

(** A change of the component's state that touches neither the client nor
    the target length sends nothing. *)
Lemma Sends_onHome (f : Home -> Home) (w : World) :
  (forall h, groqRef (f h) = groqRef h) ->
  (forall h, targetLength (f h) = targetLength h) ->
  Sends w (onHome f w).
Proof.
  intros Hg HT. split; [ apply Hg | ]. split; [ apply HT | ].
  exists []. cbn [onHome calls]. rewrite app_nil_r. auto.
Qed.

Lemma fetchPair_Sends (who : Awaiter) (ws : list string) (w : World) :
  len ws < targetLength (home w) -> Sends w (fetchPair who ws w).
Proof.
  intros Hlen. unfold fetchPair. destruct (groqRef (home w)) eqn:Eg.
  - split; [ cbn; now rewrite Eg | ]. split; [ reflexivity | ].
    exists [ws]. cbn. split; [ reflexivity | ]. split; [ congruence | ].
    constructor; [ exact Hlen | constructor ].
  - destruct who; (split; [ cbn; now rewrite Eg | ]; split; [ reflexivity | ];
      exists []; cbn; rewrite app_nil_r; auto).
Qed.

Lemma prefetchNext_Sends (ws : list string) (c : string) (w : World) :
  len (ws ++ [c]) < targetLength (home w) -> Sends w (prefetchNext ws c w).
Proof.
  intros Hlen. unfold prefetchNext. destruct (prefetchRef (home w)).
  - apply Sends_refl.
  - eapply Sends_trans; [ | now apply fetchPair_Sends ].
    apply (Sends_onHome (setPrefetchRef true)); reflexivity.
Qed.

Lemma beginSentence_Sends (w : World) :
  0 < targetLength (home w) -> Sends w (beginSentence w).
Proof.
  intros HT. unfold beginSentence.
  eapply Sends_trans; [ | apply fetchPair_Sends; exact HT ].
  apply Sends_onHome; reflexivity.
Qed.

Lemma spawn_Sends (t : Task) (w : World) : Sends w (spawn t w).
Proof.
  split; [ reflexivity | ]. split; [ reflexivity | ].
  exists []. cbn. rewrite app_nil_r. auto.
Qed.

Lemma withTasks_Sends (ts : list (nat * Task)) (w : World) : Sends w (withTasks ts w).
Proof.
  split; [ reflexivity | ]. split; [ reflexivity | ].
  exists []. cbn. rewrite app_nil_r. auto.
Qed.

Lemma chooseWord_Sends (side : Side) (w : World) : Sends w (chooseWord side w).
Proof.
  unfold chooseWord. destruct (phase (home w)); try apply Sends_refl.
  destruct (currentPair (home w)) as [current |]; try apply Sends_refl.
  eapply Sends_trans; [ | apply spawn_Sends ].
  destruct (len (words (home w) ++ [pick current side]) <? targetLength (home w)) eqn:E.
  - eapply Sends_trans; [ | apply prefetchNext_Sends; cbn; lia ].
    apply Sends_onHome; reflexivity.
  - apply Sends_onHome; reflexivity.
Qed.

Lemma Sends_same (w w' : World) :
  groqRef (home w') = groqRef (home w) ->
  targetLength (home w') = targetLength (home w) ->
  calls w' = calls w -> Sends w w'.
Proof.
  intros Hg HT Hc. split; [ exact Hg | ]. split; [ exact HT | ].
  exists []. rewrite app_nil_r. auto.
Qed.

Lemma settle_Sends (c : string) (ws : list string) (pf : option WordPair) (w : World) :
  Sends w (settle c ws pf w).
Proof.
  unfold settle. cbn [onHome home targetLength setWords].
  destruct (targetLength (home w) <=? len (ws ++ [c])) eqn:Efull;
    destruct (Js.endsWithPeriod c) eqn:Edot; cbn [orb negb];
    try (apply Sends_same; reflexivity).
  destruct pf as [p |].
  - apply Sends_same; reflexivity.
  - eapply Sends_trans; [ | apply fetchPair_Sends; cbn; lia ].
    apply Sends_same; reflexivity.
Qed.

Lemma effects_Sends (before : Home) (w : World) :
  0 < targetLength (home w) -> Sends w (effects before w).
Proof.
  intros HT. unfold effects.
  match goal with |- context [if ?c then _ else _] => destruct c end.
  - now apply beginSentence_Sends.
  - apply Sends_refl.
Qed.

(** Every event but the two on the key: the client stays and only short
    sentences are asked for. *)
Lemma step_Sends (w w' : World) (e : Event) :
  0 < targetLength (home w) ->
  step w e = Some w' -> e <> KeySubmitted -> e <> KeyForgotten -> Sends w w'.
Proof.
  intros HT. unfold step. destruct (handle w e) as [w1 |] eqn:E; [ | discriminate ].
  intros [= <-] Hs Hf.
  assert (H1 : Sends w w1).
  { destruct e; cbn [handle] in E; try congruence.
    - destruct (phase_eqb _ _); [ | discriminate ]. injection E as <-.
      apply Sends_onHome; reflexivity.
    - injection E as <-. apply chooseWord_Sends.
    - destruct (phase_eqb _ _); [ | discriminate ]. injection E as <-.
      now apply beginSentence_Sends.
    - destruct (take id (tasks w)) as [[[who ws | c ws pf] rest] |]; try discriminate.
      injection E as <-.
      eapply Sends_trans; [ | apply settle_Sends ]. apply withTasks_Sends.
    - destruct (take id (tasks w)) as [[[who ws | c ws pf] rest] |]; try discriminate.
      injection E as <-.
      eapply Sends_trans;
        [ | apply (Sends_onHome (resumePair who (generatePair ws reply))); intros h;
            [ apply (frame_resumePair groqRef) | apply (frame_resumePair targetLength) ];
            reflexivity ].
      apply withTasks_Sends. }
  eapply Sends_trans; [ exact H1 | ].
  apply effects_Sends. destruct H1 as (_ & -> & _). exact HT.
Qed.

(** X2: without a client no request leaves.  Whatever the user, the timer
    or the endpoint do, as long as no key is submitted, the list of issued
    requests stays as it is. *)
Theorem no_request_without_client (w w' : World) (e : Event) :
  Reachable w -> groqRef (home w) = None -> e <> KeySubmitted ->
  step w e = Some w' ->
  calls w' = calls w /\ groqRef (home w') = None.
Proof.
  intros Hr Hnone Hs Hstep.
  pose proof (reachable_targetLength w Hr) as HT.
  assert (Hcases : e = KeyForgotten \/ e <> KeyForgotten)
    by (destruct e; auto; right; discriminate).
  destruct Hcases as [-> | Hf].
  - unfold step in Hstep. cbn [handle] in Hstep.
    destruct (_ && _)%bool; [ | discriminate ]. injection Hstep as <-.
    assert (HT1 : 0 < targetLength (home (clearKey w))) by (cbn; lia).
    destruct (effects_Sends (home w) (clearKey w) HT1)
      as (Hg & _ & extra & Hc & Hn & _).
    rewrite Hc, Hg, (Hn eq_refl), app_nil_r. split; reflexivity.
  - destruct (step_Sends w w' e) as (Hg & _ & extra & Hc & Hn & _);
      auto; try lia.
    rewrite Hc, Hg, (Hn Hnone), app_nil_r. auto.
Qed.

(** [no_request_without_client] for a choice made after the key was
    forgotten while the first pair was on its way. *)
Lemma no_request_without_client_witness :
  exists w w' : World,
    run [KeyForgotten; Answered 0 (replyWith "the" "beneath")] mounted = Some w /\
    groqRef (home w) = None /\
    step w (Picked Safe) = Some w' /\
    calls w' = calls w.
Proof.
  pose (w := mkWorld
    (mkHome [] Choosing (Some (mkPair "the" "beneath")) None None 8 false 0
       "" "" false false None)
    [] 1 [[]] None []).
  assert (Hrun : run [KeyForgotten; Answered 0 (replyWith "the" "beneath")] mounted
                 = Some w) by (vm_compute; reflexivity).
  assert (Hreach : Reachable w).
  { refine (run_reachable _ mounted w _ Hrun).
    apply (reach_mount (Some "gsk") 0 []). lia. }
  pose (w' := mkWorld
    (mkHome [] Dissolving (Some (mkPair "the" "beneath")) None (Some Safe) 8 false 0
       "" "" false false None)
    [(1%nat, AwaitSettle "the" [] None)] 2 [[]] None []).
  assert (Hstep : step w (Picked Safe) = Some w') by (vm_compute; reflexivity).
  exists w, w'. split; [ exact Hrun | ]. split; [ reflexivity | ].
  split; [ exact Hstep | ].
  refine (proj1 (no_request_without_client w w' (Picked Safe) Hreach eq_refl _ Hstep)).
  discriminate.
Defined.

(** X3: every request the controller has issued is for a sentence shorter
    than the target length; hence the opening prompt is used for the empty
    sentence only, and the last-word prompt, the one that demands periods,
    exactly for the last position. *)
Theorem requests_stay_below_target (w : World) :
  Reachable w ->
  Forall (fun ws =>
            len ws < targetLength (home w) /\
            (tierOf (userPrompt ws (targetLength (home w))) = Opening <-> ws = []) /\
            (tierOf (userPrompt ws (targetLength (home w))) = LastWord <->
               len ws = targetLength (home w) - 1))
         (calls w).
Proof.
  intros Hr. pose proof (reachable_targetLength w Hr) as HT.
  assert (Hshort : Forall (fun ws => len ws < targetLength (home w)) (calls w)).
  { clear HT. induction Hr as [stored draw future Hd | w w' e Hr IH Hs].
    - unfold mount.
      match goal with |- context [effects ?h ?x] =>
        assert (HT : 0 < targetLength (home x))
          by (destruct stored as [key |]; [ destruct (String.eqb key "") | ];
              cbn -[Z.add]; lia);
        destruct (effects_Sends h x HT) as (_ & HT' & extra & Hc & _ & Hf);
        rewrite Hc, HT'; apply Forall_app; split; [ | exact Hf ]
      end.
      destruct stored as [key |]; [ destruct (String.eqb key "") | ]; constructor.
    - pose proof (reachable_targetLength w Hr) as HT.
      destruct (step_keeps_draw _ _ _ Hs) as [HT' _]. rewrite HT'.
      assert (Hcases : e = KeySubmitted \/ e = KeyForgotten \/
                       (e <> KeySubmitted /\ e <> KeyForgotten)).
      { destruct e; auto; right; right; split; discriminate. }
      destruct Hcases as [-> | [-> | [Hne1 Hne2]]].
      + unfold step in Hs. cbn [handle] in Hs.
        destruct (phase_eqb _ _); [ | discriminate ]. injection Hs as <-.
        assert (HT1 : 0 < targetLength (home (submitKey w)))
          by (unfold submitKey; destruct (String.eqb _ _); cbn; lia).
        assert (HTe : targetLength (home (submitKey w)) = targetLength (home w))
          by (unfold submitKey; destruct (String.eqb _ _); reflexivity).
        assert (Hce : calls (submitKey w) = calls w)
          by (unfold submitKey; destruct (String.eqb _ _); reflexivity).
        destruct (effects_Sends (home w) (submitKey w) HT1)
          as (_ & _ & extra & Hc & _ & Hf).
        rewrite Hc, Hce. apply Forall_app. split; [ exact IH | ].
        now rewrite HTe in Hf.
      + unfold step in Hs. cbn [handle] in Hs.
        destruct (_ && _)%bool; [ | discriminate ]. injection Hs as <-.
        assert (HT1 : 0 < targetLength (home (clearKey w))) by (cbn; lia).
        destruct (effects_Sends (home w) (clearKey w) HT1)
          as (_ & _ & extra & Hc & _ & Hf).
        rewrite Hc. apply Forall_app. split; [ exact IH | exact Hf ].
      + destruct (step_Sends w w' e) as (_ & _ & extra & Hc & _ & Hf);
          auto; try lia.
        rewrite Hc. apply Forall_app. split; [ exact IH | exact Hf ]. }
  revert Hshort. apply Forall_impl. intros ws Hlen.
  split; [ exact Hlen | ].
  unfold userPrompt.
  destruct (len ws =? 0) eqn:E0.
  - apply len_nil_iff in E0. subst ws. cbn [tierOf]. split.
    + split; reflexivity.
    + split; [ discriminate | ]. unfold len. cbn. lia.
  - assert (Hne : ws <> []) by (intros ->; discriminate).
    destruct (targetLength (home w) - len ws <=? 1) eqn:E1; cbn [tierOf].
    + split; [ split; [ discriminate | contradiction ] | ].
      split; [ intros _; lia | reflexivity ].
    + destruct (targetLength (home w) - len ws <=? 3); cbn [tierOf];
        (split; [ split; [ discriminate | contradiction ] | ];
         split; [ discriminate | lia ]).
Qed.

(** [requests_stay_below_target] after the first choice of a sentence. *)
Lemma requests_stay_below_target_witness :
  exists w : World,
    run [Answered 0 (replyWith "the" "beneath"); Picked Safe] mounted = Some w /\
    calls w = [[]; ["the"]] /\
    Forall (fun ws => len ws < targetLength (home w)) (calls w).
Proof.
  pose (w := mkWorld
    (mkHome [] Dissolving (Some (mkPair "the" "beneath")) None (Some Safe)
       8 false 0 "gsk" "" false true (Some "gsk"))
    [(1%nat, AwaitPair ForPrefetch ["the"]); (2%nat, AwaitSettle "the" [] None)]
    3 [[]; ["the"]] (Some "gsk") []).
  assert (Hrun : run [Answered 0 (replyWith "the" "beneath"); Picked Safe] mounted
                 = Some w) by (vm_compute; reflexivity).
  assert (Hreach : Reachable w).
  { refine (run_reachable _ mounted w _ Hrun).
    apply (reach_mount (Some "gsk") 0 []). lia. }
  exists w. split; [ exact Hrun | ]. split; [ reflexivity | ].
  refine (Forall_impl _ _ (requests_stay_below_target w Hreach)).
  intros ws H. exact (proj1 H).
Defined.


(** ** Submitting a key and beginning again *)

(** X4: a key that is blank once trimmed is ignored; any other is stored
    trimmed, in the state, in the client and in the storage, the error
    flag is lowered, and the begin effect issues exactly one first
    request. *)
Theorem key_submission (w w' : World) :
  step w KeySubmitted = Some w' ->
  (Js.trim (keyInput (home w)) = "" /\ w' = w) \/
  (Js.trim (keyInput (home w)) <> "" /\
   apiKey (home w') = Js.trim (keyInput (home w)) /\
   groqRef (home w') = Some (Js.trim (keyInput (home w))) /\
   storage w' = Some (Js.trim (keyInput (home w))) /\
   keyError (home w') = false /\
   phase (home w') = Waiting /\ words (home w') = [] /\
   calls w' = calls w ++ [[]] /\
   tasks w' = tasks w ++ [(nextId w, AwaitPair ForBegin [])]).
Proof.
  unfold step. cbn [handle].
  destruct (phase_eqb (phase (home w)) KeyEntry) eqn:Ep; [ | discriminate ].
  apply phase_eqb_eq in Ep. intros [= <-]. unfold submitKey.
  set (trimmed := Js.trim (keyInput (home w))).
  destruct (String.eqb_spec trimmed "") as [Et | Et].
  - left. split; [ exact Et | ]. now apply effects_idle.
  - right. split; [ exact Et | ].
    unfold effects. cbn [home onHome withStorage apiKey phase setPhase setGroqRef
      setApiKey setKeyError].
    rewrite Ep. cbn [phase_eqb negb].
    destruct (String.eqb_spec trimmed ""); [ contradiction | ].
    rewrite orb_true_r. cbn [andb negb].
    unfold beginSentence, fetchPair. cbn. repeat split.
Qed.

(** [key_submission] for a key typed with blanks around it. *)
Lemma key_submission_witness :
  exists w' : World,
    step (mkWorld
            (mkHome [] KeyEntry None None None 9 false 0 "" " gsk_1 " false false None)
            [] 0 [] None []) KeySubmitted = Some w' /\
    apiKey (home w') = "gsk_1" /\ calls w' = [[]].
Proof.
  pose (w := mkWorld
    (mkHome [] KeyEntry None None None 9 false 0 "" " gsk_1 " false false None)
    [] 0 [] None []).
  pose (w' := mkWorld
    (mkHome [] Waiting None None None 9 true 0 "gsk_1" " gsk_1 " false false
       (Some "gsk_1"))
    [(0%nat, AwaitPair ForBegin [])] 1 [[]] (Some "gsk_1") []).
  assert (Hstep : step w KeySubmitted = Some w') by (vm_compute; reflexivity).
  exists w'. split; [ exact Hstep | ].
  destruct (key_submission w w' Hstep) as [[Hblank _] | (_ & Hk & _ & _ & _ & _ & _ & Hc & _)].
  - discriminate Hblank.
  - split; [ exact Hk | exact Hc ].
Defined.

(** X5: beginning again while a key is held issues the first request
    twice: once from the handler and once from the begin effect, which
    runs again because the phase has changed to [waiting].  Two
    [beginSentence] calls are then suspended. *)
Theorem restart_requests_twice (w w' : World) :
  Reachable w -> phase (home w) = Complete -> apiKey (home w) <> "" ->
  step w BeginAgain = Some w' ->
  calls w' = calls w ++ [[]; []] /\
  tasks w' = tasks w ++ [(nextId w, AwaitPair ForBegin []);
                         (S (nextId w), AwaitPair ForBegin [])] /\
  phase (home w') = Waiting /\ words (home w') = [].
Proof.
  intros Hr Hp Hk Hstep.
  pose proof (reachable_clientMatchesKey w Hr) as Hc. unfold clientMatchesKey in Hc.
  destruct (String.eqb_spec (apiKey (home w)) "") as [E | E]; [ contradiction | ].
  unfold step in Hstep. cbn [handle] in Hstep. rewrite Hp in Hstep.
  cbn [phase_eqb] in Hstep. injection Hstep as <-.
  unfold effects, beginSentence, fetchPair. cbn. rewrite Hc. cbn. rewrite Hp. cbn.
  destruct (String.eqb_spec (apiKey (home w)) ""); [ contradiction | ].
  rewrite orb_true_r. cbn. rewrite Hc. cbn.
  rewrite <- !app_assoc. repeat split.
Qed.

(** [restart_requests_twice] after a one-word sentence. *)
Lemma restart_requests_twice_witness :
  exists w w' : World,
    run [Answered 0 (replyWith "rain." "sun."); Picked Safe; Settled 2] mounted
      = Some w /\
    step w BeginAgain = Some w' /\
    calls w' = calls w ++ [[]; []].
Proof.
  pose (w := mkWorld
    (mkHome ["rain."] Complete (Some (mkPair "rain." "sun.")) None (Some Safe)
       8 false 1 "gsk" "" false true (Some "gsk"))
    [(1%nat, AwaitPair ForPrefetch ["rain."])]
    3 [[]; ["rain."]] (Some "gsk") []).
  pose (w' := mkWorld
    (mkHome [] Waiting (Some (mkPair "rain." "sun.")) None None
       8 true 1 "gsk" "" false true (Some "gsk"))
    [(1%nat, AwaitPair ForPrefetch ["rain."]); (3%nat, AwaitPair ForBegin []);
     (4%nat, AwaitPair ForBegin [])]
    5 [[]; ["rain."]; []; []] (Some "gsk") []).
  assert (Hrun : run [Answered 0 (replyWith "rain." "sun."); Picked Safe; Settled 2]
                   mounted = Some w) by (vm_compute; reflexivity).
  assert (Hreach : Reachable w).
  { refine (run_reachable _ mounted w _ Hrun).
    apply (reach_mount (Some "gsk") 0 []). lia. }
  assert (Hstep : step w BeginAgain = Some w') by (vm_compute; reflexivity).
  exists w, w'. split; [ exact Hrun | ]. split; [ exact Hstep | ].
  refine (proj1 (restart_requests_twice w w' Hreach eq_refl _ Hstep)).
  discriminate.
Defined.

(** ** The sentence counter *)

Lemma settle_counter (c : string) (ws : list string) (pf : option WordPair) (w : World) :
  sentenceCount (home (settle c ws pf w)) =
    sentenceCount (home w) + (if seals (targetLength (home w)) ws c then 1 else 0) /\
  (seals (targetLength (home w)) ws c = true ->
     phase (home (settle c ws pf w)) = Complete /\
     words (home (settle c ws pf w)) = ws ++ [sealed c]) /\
  (seals (targetLength (home w)) ws c = false ->
     phase (home (settle c ws pf w)) = Complete -> phase (home w) = Complete).
Proof.
  unfold settle, seals, sealed. cbn [onHome home targetLength setWords].
  destruct ((targetLength (home w) <=? len (ws ++ [c])) || Js.endsWithPeriod c)%bool
    eqn:Eseal.
  - destruct (Js.endsWithPeriod c); cbn [negb]; cbn;
      rewrite ?setLast_snoc; repeat split; discriminate.
  - split; [ | split; [ discriminate | intros _ ] ].
    + destruct pf as [p |]; [ cbn; lia | ].
      rewrite (frame_fetchPair sentenceCount) by reflexivity. cbn. lia.
    + destruct pf as [p |]; [ cbn; discriminate | ].
      intros H. apply fetchPair_noSeal in H. exact H.
Qed.

(** X6: the sentence counter moves only when a sentence is sealed, and
    then by one: an event either leaves the counter as it is and does not
    enter [complete], or it is the end of a pause whose captured words and
    chosen word meet the sealing condition, and then the counter grows by
    one, the phase is [complete] and the sentence is the captured words
    and the sealed word. *)
Theorem sentence_counter_counts_seals (w w' : World) (e : Event) :
  step w e = Some w' ->
  (sentenceCount (home w') = sentenceCount (home w) /\
   (phase (home w') = Complete -> phase (home w) = Complete)) \/
  (exists (id : nat) (c : string) (ws : list string) (pf : option WordPair)
          (rest : list (nat * Task)),
     e = Settled id /\
     take id (tasks w) = Some (AwaitSettle c ws pf, rest) /\
     seals (targetLength (home w)) ws c = true /\
     sentenceCount (home w') = sentenceCount (home w) + 1 /\
     phase (home w') = Complete /\
     words (home w') = ws ++ [sealed c]).
Proof.
  unfold step. destruct (handle w e) as [w1 |] eqn:E; [ | discriminate ].
  intros [= <-].
  assert (Hcases : (exists id, e = Settled id) \/ (forall id, e <> Settled id)).
  { destruct e; try (right; intros; discriminate). left. now exists id. }
  destruct Hcases as [[id ->] | Hother].
  - cbn [handle] in E.
    destruct (take id (tasks w)) as [[[who ws | c ws pf] rest] |] eqn:Et;
      try discriminate.
    injection E as <-.
    destruct (settle_counter c ws pf (withTasks rest w)) as (Hn & Hyes & Hno).
    cbn [withTasks home] in Hn, Hyes, Hno.
    destruct (seals (targetLength (home w)) ws c) eqn:Es.
    + right. exists id, c, ws, pf, rest.
      destruct (Hyes eq_refl) as [Hp Hw].
      assert (Heff : effects (home w) (settle c ws pf (withTasks rest w))
                     = settle c ws pf (withTasks rest w)).
      { unfold effects. rewrite Hp. cbn [phase_eqb]. now rewrite andb_false_r. }
      rewrite Heff. repeat split; auto.
    + left. rewrite (frame_effects sentenceCount) by reflexivity.
      split; [ lia | ]. intros H.
      rewrite (effects_complete _ _ H) in H. exact (Hno eq_refl H).
  - left. rewrite (frame_effects sentenceCount) by reflexivity. split.
    + destruct e; cbn [handle] in E.
      * destruct (phase_eqb _ _); [ | discriminate ]. now injection E as <-.
      * destruct (phase_eqb _ _); [ | discriminate ]. injection E as <-.
        unfold submitKey. now destruct (String.eqb _ _).
      * destruct (_ && _)%bool; [ | discriminate ]. now injection E as <-.
      * injection E as <-. now rewrite (frame_chooseWord sentenceCount).
      * destruct (phase_eqb _ _); [ | discriminate ]. injection E as <-.
        now rewrite (frame_beginSentence sentenceCount).
      * now contradiction (Hother id).
      * destruct (take id (tasks w)) as [[[who ws | c ws pf] rest] |];
          try discriminate.
        injection E as <-. cbn [onHome home withTasks].
        now rewrite (frame_resumePair sentenceCount).
    + intros H. rewrite (effects_complete _ _ H) in H.
      exact (handle_noSeal w w1 e Hother E H).
Qed.

(** [sentence_counter_counts_seals] at the end of the only pause of a
    one-word sentence. *)
Lemma sentence_counter_counts_seals_witness :
  exists w w' : World,
    run [Answered 0 (replyWith "rain." "sun."); Picked Safe] mounted = Some w /\
    step w (Settled 2) = Some w' /\
    sentenceCount (home w') = sentenceCount (home w) + 1.
Proof.
  pose (w := mkWorld
    (mkHome [] Dissolving (Some (mkPair "rain." "sun.")) None (Some Safe)
       8 false 0 "gsk" "" false true (Some "gsk"))
    [(1%nat, AwaitPair ForPrefetch ["rain."]); (2%nat, AwaitSettle "rain." [] None)]
    3 [[]; ["rain."]] (Some "gsk") []).
  pose (w' := mkWorld
    (mkHome ["rain."] Complete (Some (mkPair "rain." "sun.")) None (Some Safe)
       8 false 1 "gsk" "" false true (Some "gsk"))
    [(1%nat, AwaitPair ForPrefetch ["rain."])]
    3 [[]; ["rain."]] (Some "gsk") []).
  assert (Hstep : step w (Settled 2) = Some w') by (vm_compute; reflexivity).
  exists w, w'. split; [ vm_compute; reflexivity | ]. split; [ exact Hstep | ].
  destruct (sentence_counter_counts_seals w w' (Settled 2) Hstep)
    as [[_ Hp] | (id & c & ws & pf & rest & _ & _ & _ & Hn & _)].
  - discriminate (Hp eq_refl).
  - exact Hn.
Defined.

(** ** The stall after a failed fetch in mid-sentence *)

(** X7: once the phase is [dissolving] and nothing but prefetches is
    suspended (as after a null pair in mid-sentence), the page is stuck:
    no choice, no key press, no timer and no answer changes the phase, the
    sentence or the pair on show, and no request leaves.  Forgetting the
    key is the only way out. *)
Theorem stalled_after_null_pair (w w' : World) (e : Event) :
  phase (home w) = Dissolving ->
  Forall (fun entry => isPrefetch entry = true) (tasks w) ->
  e <> KeyForgotten ->
  step w e = Some w' ->
  phase (home w') = Dissolving /\ words (home w') = words (home w) /\
  currentPair (home w') = currentPair (home w) /\
  calls w' = calls w /\
  Forall (fun entry => isPrefetch entry = true) (tasks w').
Proof.
  intros Hp Hall Hf. unfold step.
  destruct (handle w e) as [w1 |] eqn:E; [ | discriminate ].
  intros [= <-].
  destruct e; cbn [handle] in E; try congruence.
  - rewrite Hp in E. discriminate.
  - rewrite Hp in E. discriminate.
  - injection E as <-. unfold chooseWord. rewrite Hp.
    rewrite effects_idle by reflexivity. auto.
  - rewrite Hp in E. discriminate.
  - destruct (take id (tasks w)) as [[[who ws | c ws pf] rest] |] eqn:Et;
      try discriminate.
    apply (take_Forall _ _ _ _ _ Et) in Hall. destruct Hall as [Hbad _].
    discriminate.
  - destruct (take id (tasks w)) as [[[who ws | c ws pf] rest] |] eqn:Et;
      try discriminate.
    injection E as <-.
    apply (take_Forall _ _ _ _ _ Et) in Hall. destruct Hall as [Hwho Hrest].
    apply awaitsBegin_not_prefetch in Hwho. subst who.
    rewrite effects_idle by reflexivity. cbn. auto.
Qed.

(** [stalled_after_null_pair] after the request for the second pair was
    rejected: the user presses a key and nothing happens. *)
Lemma stalled_after_null_pair_witness :
  exists w : World,
    run [Answered 0 (replyWith "the" "beneath"); Picked Safe; Answered 1 Rejected;
         Settled 2; Answered 3 Rejected] mounted = Some w /\
    phase (home w) = Dissolving /\ tasks w = [] /\
    step w (Picked Leap) = Some w.
Proof.
  pose (w := mkWorld
    (mkHome ["the"] Dissolving (Some (mkPair "the" "beneath")) None None
       8 false 0 "gsk" "" false false (Some "gsk"))
    [] 4 [[]; ["the"]; ["the"]] (Some "gsk") []).
  assert (Hrun : run [Answered 0 (replyWith "the" "beneath"); Picked Safe;
                      Answered 1 Rejected; Settled 2; Answered 3 Rejected] mounted
                 = Some w) by (vm_compute; reflexivity).
  assert (Hstep : step w (Picked Leap) = Some w) by (vm_compute; reflexivity).
  exists w. split; [ exact Hrun | ]. split; [ reflexivity | ].
  split; [ reflexivity | ].
  destruct (stalled_after_null_pair w w (Picked Leap) eq_refl) as [_ _];
    [ constructor | discriminate | exact Hstep | exact Hstep ].
Defined.

(** ** A pair is on show whenever one is needed *)

Lemma resumePair_keeps_pair (who : Awaiter) (pair : option WordPair) (h : Home) :
  currentPair h <> None -> currentPair (resumePair who pair h) <> None.
Proof.
  destruct who, pair as [p |]; cbn; auto; discriminate.
Qed.

Lemma fetchPair_pair (who : Awaiter) (ws : list string) (w : World) :
  currentPair (home (fetchPair who ws w)) = currentPair (home w).
Proof.
  unfold fetchPair. destruct (groqRef (home w)); [ reflexivity | ].
  destruct who; reflexivity.
Qed.

Lemma prefetchNext_pair (ws : list string) (c : string) (w : World) :
  currentPair (home (prefetchNext ws c w)) = currentPair (home w).
Proof.
  unfold prefetchNext. destruct (prefetchRef (home w)); [ reflexivity | ].
  now rewrite fetchPair_pair.
Qed.

Lemma beginSentence_pair (w : World) :
  currentPair (home (beginSentence w)) = currentPair (home w).
Proof. unfold beginSentence. now rewrite fetchPair_pair. Qed.

Lemma chooseWord_pair (side : Side) (w : World) :
  currentPair (home (chooseWord side w)) = currentPair (home w).
Proof.
  unfold chooseWord. destruct (phase (home w)); try reflexivity.
  destruct (currentPair (home w)) as [current |] eqn:Ec; [ | now rewrite Ec ].
  cbn [spawn home].
  match goal with |- context [if ?c then _ else _] => destruct c end;
    rewrite ?prefetchNext_pair; cbn; now rewrite Ec.
Qed.

Lemma effects_pair (before : Home) (w : World) :
  currentPair (home (effects before w)) = currentPair (home w).
Proof.
  unfold effects.
  match goal with |- context [if ?c then _ else _] => destruct c end;
    [ apply beginSentence_pair | reflexivity ].
Qed.

Lemma settle_keeps_pair (c : string) (ws : list string) (pf : option WordPair) (w : World) :
  currentPair (home w) <> None -> currentPair (home (settle c ws pf w)) <> None.
Proof.
  intros H. unfold settle.
  match goal with |- context [if ?c then _ else _] => destruct c end.
  - destruct (negb (Js.endsWithPeriod c)); exact H.
  - destruct pf as [p |]; [ cbn; discriminate | ].
    rewrite fetchPair_pair. exact H.
Qed.

Lemma step_keeps_pair (w w' : World) (e : Event) :
  step w e = Some w' ->
  currentPair (home w) <> None -> currentPair (home w') <> None.
Proof.
  unfold step. destruct (handle w e) as [w1 |] eqn:E; [ | discriminate ].
  intros [= <-] H. rewrite effects_pair.
  destruct e; cbn [handle] in E.
  - destruct (phase_eqb _ _); [ | discriminate ]. now injection E as <-.
  - destruct (phase_eqb _ _); [ | discriminate ]. injection E as <-.
    unfold submitKey. now destruct (String.eqb _ _).
  - destruct (_ && _)%bool; [ | discriminate ]. now injection E as <-.
  - injection E as <-. now rewrite chooseWord_pair.
  - destruct (phase_eqb _ _); [ | discriminate ]. injection E as <-.
    now rewrite beginSentence_pair.
  - destruct (take id (tasks w)) as [[[who ws | c ws pf] rest] |]; try discriminate.
    injection E as <-. now apply settle_keeps_pair.
  - destruct (take id (tasks w)) as [[[who ws | c ws pf] rest] |]; try discriminate.
    injection E as <-. now apply resumePair_keeps_pair.
Qed.

Lemma beginSentence_pristine (w : World) :
  Forall (fun entry => awaitsBegin (snd entry) = true) (tasks w) ->
  pristine (beginSentence w).
Proof.
  intros Hall. unfold pristine, beginSentence, fetchPair. cbn.
  destruct (groqRef (home w)); cbn.
  - split; [ now right | ]. split; [ reflexivity | ].
    apply Forall_app. split; [ exact Hall | ]. constructor; [ reflexivity | constructor ].
  - split; [ now left | ]. split; [ reflexivity | exact Hall ].
Qed.

Lemma effects_pristine (before : Home) (w : World) :
  pristine w -> pristine (effects before w).
Proof.
  intros Hw. unfold effects.
  match goal with |- context [if ?c then _ else _] => destruct c end;
    [ | exact Hw ].
  apply beginSentence_pristine. apply Hw.
Qed.

Lemma step_pristine (w w' : World) (e : Event) :
  currentPair (home w) = None -> pristine w ->
  step w e = Some w' -> currentPair (home w') = None -> pristine w'.
Proof.
  intros Hnone (Hph & Hwords & Hall). unfold step.
  destruct (handle w e) as [w1 |] eqn:E; [ | discriminate ].
  intros [= <-]. rewrite effects_pair. intros Hnone'.
  apply effects_pristine.
  destruct e; cbn [handle] in E.
  - destruct (phase_eqb _ _); [ | discriminate ]. injection E as <-.
    repeat split; assumption.
  - destruct (phase_eqb _ _); [ | discriminate ]. injection E as <-.
    unfold submitKey. destruct (String.eqb _ _); [ repeat split; assumption | ].
    split; [ now right | ]. split; assumption.
  - destruct (_ && _)%bool; [ | discriminate ]. injection E as <-.
    split; [ now left | ]. split; assumption.
  - injection E as <-.
    assert (Hsame : chooseWord side w = w)
      by (unfold chooseWord; rewrite Hnone; destruct (phase (home w)); reflexivity).
    rewrite Hsame. repeat split; assumption.
  - destruct (phase_eqb _ _) eqn:Ep; [ | discriminate ].
    apply phase_eqb_eq in Ep. destruct Hph; congruence.
  - destruct (take id (tasks w)) as [[[who ws | c ws pf] rest] |] eqn:Et;
      try discriminate.
    apply (take_Forall _ _ _ _ _ Et) in Hall. destruct Hall as [Hbad _].
    discriminate.
  - destruct (take id (tasks w)) as [[[who ws | c ws pf] rest] |] eqn:Et;
      try discriminate.
    injection E as <-.
    apply (take_Forall _ _ _ _ _ Et) in Hall. destruct Hall as [Hwho Hrest].
    destruct who; try discriminate.
    destruct (generatePair ws reply) as [p |]; [ discriminate | ].
    split; [ now left | ]. split; assumption.
Qed.

Lemma reachable_pristine (w : World) :
  Reachable w -> currentPair (home w) = None -> pristine w.
Proof.
  induction 1 as [stored draw future Hd | w w' e _ IH Hs].
  - intros _. unfold mount. apply effects_pristine.
    destruct stored as [key |]; [ destruct (String.eqb key "") | ];
      (split; [ auto | ]; split; [ reflexivity | constructor ]).
  - intros Hnone. destruct (currentPair (home w)) as [p |] eqn:Ec.
    + exfalso. refine (step_keeps_pair _ _ _ Hs _ Hnone). rewrite Ec. discriminate.
    + exact (step_pristine _ _ _ Ec (IH eq_refl) Hs Hnone).
Qed.

(** X8: a pair is set whenever the page needs one.  In every reachable
    world in which the phase is [choosing], [dissolving] or [complete],
    or the sentence has a word, [currentPair] is not null: before the
    first pair arrives the component has done nothing but wait, with an
    empty sentence and nothing but [beginSentence] suspended. *)
Theorem pair_on_show (w : World) :
  Reachable w ->
  (currentPair (home w) = None -> pristine w) /\
  (phase (home w) = Choosing \/ phase (home w) = Dissolving \/
   phase (home w) = Complete \/ words (home w) <> [] ->
   exists p : WordPair, currentPair (home w) = Some p).
Proof.
  intros Hr. pose proof (reachable_pristine w Hr) as H.
  split; [ exact H | ].
  intros Hneed. destruct (currentPair (home w)) as [p |]; [ now exists p | ].
  destruct (H eq_refl) as ([Hp | Hp] & Hw & _);
    destruct Hneed as [Hn | [Hn | [Hn | Hn]]]; congruence.
Qed.

(** [pair_on_show] once the first pair has arrived. *)
Lemma pair_on_show_witness :
  exists w : World,
    step mounted (Answered 0 (replyWith "the" "beneath")) = Some w /\
    phase (home w) = Choosing /\
    exists p : WordPair, currentPair (home w) = Some p.
Proof.
  pose (w := mkWorld
    (mkHome [] Choosing (Some (mkPair "the" "beneath")) None None
       8 false 0 "gsk" "" false false (Some "gsk"))
    [] 1 [[]] (Some "gsk") []).
  assert (Hstep : step mounted (Answered 0 (replyWith "the" "beneath")) = Some w)
    by (vm_compute; reflexivity).
  assert (Hreach : Reachable w).
  { refine (reach_step mounted w _ _ Hstep).
    apply (reach_mount (Some "gsk") 0 []). lia. }
  exists w. split; [ exact Hstep | ]. split; [ reflexivity | ].
  apply (proj2 (pair_on_show w Hreach)). now left.
Defined.

(** ** The filter again *)

Lemma stripPeriod_no_period (s : string) :
  Js.endsWithPeriod s = false -> Js.stripPeriod s = s.
Proof.
  induction s as [| c rest IH]; [ reflexivity | ].
  unfold Js.endsWithPeriod, Js.stripPeriod. fold Js.endsWithPeriod. fold Js.stripPeriod.
  destruct rest as [| c' rest'].
  - intros ->. reflexivity.
  - intros H. now rewrite (IH H).
Qed.

Lemma stripPeriod_append (s : string) : Js.stripPeriod (s ++ ".")%string = s.
Proof.
  induction s as [| c rest IH]; [ reflexivity | ].
  change (String c rest ++ ".")%string with (String c (rest ++ ".")%string).
  unfold Js.stripPeriod. fold Js.stripPeriod.
  destruct (rest ++ ".")%string eqn:E.
  - destruct rest; discriminate.
  - now rewrite IH.
Qed.

(** X9: sealing does not change the form under which a word counts as
    used.  Stripping the period the controller appends gives the chosen
    word back, the sealed word cleans to what the chosen word cleans to,
    and so the filter treats a sentence whose last word was sealed as it
    treats the sentence of the words as chosen. *)
Theorem sealing_keeps_the_used_form (chosen : string) (ws : list string)
    (reply : OracleReply) :
  Js.stripPeriod (chosen ++ ".")%string = chosen /\
  clean (sealed chosen) = clean chosen /\
  usedWordsOf (ws ++ [sealed chosen]) = usedWordsOf (ws ++ [chosen]) /\
  generatePair (ws ++ [sealed chosen]) reply = generatePair (ws ++ [chosen]) reply.
Proof.
  assert (Hclean : clean (sealed chosen) = clean chosen).
  { unfold sealed, clean. destruct (Js.endsWithPeriod chosen) eqn:E; [ reflexivity | ].
    now rewrite stripPeriod_append, (stripPeriod_no_period chosen E). }
  assert (Hused : usedWordsOf (ws ++ [sealed chosen]) = usedWordsOf (ws ++ [chosen])).
  { unfold usedWordsOf. rewrite !map_app. cbn [map]. now rewrite Hclean. }
  split; [ apply stripPeriod_append | ].
  split; [ exact Hclean | ]. split; [ exact Hused | ].
  destruct reply; cbn [generatePair]; try reflexivity. now rewrite Hused.
Qed.

(** X10: the filter is idempotent: a pair it has returned passes it
    unchanged for the same used words. *)
Theorem validate_idempotent (raw : RawPair) (U : list string) (p : WordPair) :
  validate raw U = Some p ->
  validate (mkRaw (Some (safe p)) (Some (leap p))) U = Some p.
Proof.
  intros Hv. unfold validate in Hv.
  destruct (falsy (raw_safe raw)) eqn:Es; [ discriminate | ].
  destruct (falsy (raw_leap raw)) eqn:El; [ discriminate | ].
  cbn [orb] in Hv.
  destruct (falsy_false _ Es) as (s & Hs & Hsne).
  destruct (falsy_false _ El) as (l & Hl & Hlne).
  rewrite Hs, Hl in Hv.
  destruct (Js.has U (clean s)) eqn:Hus, (Js.has U (clean l)) eqn:Hul;
    cbn in Hv; try discriminate; injection Hv as <-; cbn [safe leap];
    rewrite validate_present by assumption; rewrite ?Hus, ?Hul; reflexivity.
Qed.

(** [validate_idempotent] on the repaired pair of the specification's
    example. *)
Lemma validate_idempotent_witness :
  validate (mkRaw (Some "the") (Some "window")) ["the"]
    = Some (mkPair "window" "window") /\
  validate (mkRaw (Some "window") (Some "window")) ["the"]
    = Some (mkPair "window" "window").
Proof.
  split; [ reflexivity | ].
  exact (validate_idempotent (mkRaw (Some "the") (Some "window")) ["the"]
           (mkPair "window" "window") eq_refl).
Defined.

(** ** The three ways to a pair *)

Lemma truthy_Str (s : string) : truthy (Str s) = true <-> s <> "".
Proof.
  cbn. destruct (String.eqb_spec s ""); cbn; split; congruence.
Qed.

Lemma generatePairPositioned_some (c : Completion) (b : ParsedPair) :
  generatePairPositioned c = Some b <->
  c = Object b /\ truthy (parsed_safe b) = true /\ truthy (parsed_leap b) = true.
Proof.
  destruct c as [| | | parsed]; cbn [generatePairPositioned];
    try (split; [ discriminate | intros [H _]; discriminate ]).
  destruct (truthy (parsed_safe parsed)) eqn:Es, (truthy (parsed_leap parsed)) eqn:El;
    cbn [negb orb]; split;
    try discriminate;
    try (intros [H [H1 H2]]; injection H as ->; congruence).
  intros [= <-]. auto.
Qed.

Lemma POST_200 (c : Completion) (b : ParsedPair) :
  POST c = Json200 b <-> generatePairPositioned c = Some b.
Proof.
  destruct c as [| | | parsed]; cbn [POST generatePairPositioned];
    try (split; discriminate).
  destruct (negb (truthy (parsed_safe parsed)) || negb (truthy (parsed_leap parsed)))%bool;
    split; try discriminate; intros [= <-]; reflexivity.
Qed.

(** What the filtering [generatePair] accepts: two non-empty strings,
    which it hands to the filter. *)
Lemma generatePair_asReply_some (ws : list string) (c : Completion) (p : WordPair) :
  generatePair ws (asReply c) = Some p ->
  exists q : WordPair,
    c = Object (jsonOf q) /\ safe q <> "" /\ leap q <> "" /\
    validate (mkRaw (Some (safe q)) (Some (leap q))) (usedWordsOf ws) = Some p.
Proof.
  destruct c as [| | | [vs vl]]; cbn [asReply generatePair]; try discriminate.
  cbn [parsed_safe parsed_leap].
  destruct vs as [| s | [|]], vl as [| l | [|]]; cbn [fieldOf generatePair];
    try discriminate;
    try (intros H; rewrite validate_missing in H by (cbn; auto); discriminate).
  intros H. exists (mkPair s l). cbn [safe leap jsonOf].
  split; [ reflexivity | ].
  destruct (String.eqb_spec s "") as [-> | Hs];
    [ rewrite validate_missing in H by (cbn; auto); discriminate | ].
  destruct (String.eqb_spec l "") as [-> | Hl];
    [ rewrite validate_missing in H by (cbn; auto); discriminate | ].
  auto.
Qed.

Lemma validate_nothing_used (s l : string) :
  s <> "" -> l <> "" ->
  validate (mkRaw (Some s) (Some l)) (usedWordsOf []) = Some (mkPair s l).
Proof.
  intros Hs Hl. unfold validate. cbn [raw_safe raw_leap].
  rewrite (falsy_some s Hs), (falsy_some l Hl). reflexivity.
Qed.

(** X11: the proxied page and the direct pages get the same answer out of
    the same completion, but for a field that is no string.  The route
    answers 200 exactly when the earlier [generatePair] returns the
    parsed value, which is when both fields are truthy; the proxied
    [fetchPair] hands the page the body of a 200 and null on every 500
    and on a failed [fetch], so that through the route the page gets what
    the earlier [generatePair] returns.  The filtering [generatePair],
    for the empty sentence, returns a pair exactly when the fields are
    two non-empty strings, and then the others return the same; the three
    differ exactly on a completion with two truthy fields of which one is
    no string, which the route and the earlier [generatePair] pass on and
    the filtering one turns into null. *)
Theorem proxy_agrees_with_direct (c : Completion) :
  (forall b : ParsedPair, POST c = Json200 b <-> generatePairPositioned c = Some b) /\
  (forall b : ParsedPair,
     POST c = Json200 b <->
     c = Object b /\ truthy (parsed_safe b) = true /\ truthy (parsed_leap b) = true) /\
  (forall r : Response,
     asResponse (POST c) = Some r ->
     option_map jsonOf (proxiedFetchPair (Got r)) = generatePairPositioned c) /\
  proxiedFetchPair FetchThrew = None /\
  (forall p : WordPair,
     generatePair [] (asReply c) = Some p <->
     c = Object (jsonOf p) /\ safe p <> "" /\ leap p <> "") /\
  (forall p : WordPair,
     generatePair [] (asReply c) = Some p ->
     generatePairPositioned c = Some (jsonOf p)) /\
  (generatePairPositioned c <> None /\ generatePair [] (asReply c) = None <->
   exists b : ParsedPair,
     c = Object b /\ truthy (parsed_safe b) = true /\
     truthy (parsed_leap b) = true /\ wordPairOf b = None).
Proof.
  assert (Hfilter : forall p : WordPair,
            generatePair [] (asReply c) = Some p <->
            c = Object (jsonOf p) /\ safe p <> "" /\ leap p <> "").
  { intros p. split.
    - intros H. destruct (generatePair_asReply_some [] c p H) as (q & -> & Hs & Hl & Hv).
      rewrite (validate_nothing_used _ _ Hs Hl) in Hv. injection Hv as <-.
      destruct q as [s l]. auto.
    - intros (-> & Hs & Hl). destruct p as [s l]. cbn [safe leap] in *.
      cbn [asReply jsonOf parsed_safe parsed_leap safe leap fieldOf generatePair].
      now apply validate_nothing_used. }
  split; [ intros b; apply POST_200 | ].
  split; [ intros b; rewrite POST_200; apply generatePairPositioned_some | ].
  split; [ | split; [ reflexivity | split; [ exact Hfilter | split ] ] ].
  - intros r Hr. destruct (POST c) as [body | err] eqn:Ep; cbn [asResponse] in Hr.
    + apply POST_200 in Ep. rewrite Ep.
      destruct body as [[| s | t] [| l | u]]; cbn in Hr; try discriminate.
      injection Hr as <-. reflexivity.
    + injection Hr as <-. cbn [proxiedFetchPair option_map].
      destruct (generatePairPositioned c) as [b |] eqn:Eg; [ | reflexivity ].
      apply POST_200 in Eg. congruence.
  - intros p H. apply Hfilter in H. destruct H as (-> & Hs & Hl).
    apply generatePairPositioned_some. split; [ reflexivity | ].
    cbn [jsonOf parsed_safe parsed_leap]. now rewrite !truthy_Str.
  - split.
    + intros [Hsome Hnone].
      destruct (generatePairPositioned c) as [b |] eqn:Eg; [ | congruence ].
      apply generatePairPositioned_some in Eg. destruct Eg as (-> & Hs & Hl).
      exists b. split; [ reflexivity | ]. split; [ exact Hs | ]. split; [ exact Hl | ].
      destruct (wordPairOf b) as [q |] eqn:Eq; [ exfalso | reflexivity ].
      destruct b as [[| s | t] [| l | u]]; cbn in Eq; try discriminate.
      injection Eq as <-. apply truthy_Str in Hs, Hl.
      assert (Hq : generatePair [] (asReply (Object (mkParsed (Str s) (Str l))))
                     = Some (mkPair s l))
        by (apply (Hfilter (mkPair s l)); auto).
      rewrite Hq in Hnone. discriminate.
    + intros (b & -> & Hs & Hl & Hw). split.
      * assert (Hg : generatePairPositioned (Object b) = Some b)
          by (apply generatePairPositioned_some; auto).
        congruence.
      * assert (Hno : forall p : WordPair,
                  generatePair [] (asReply (Object b)) <> Some p).
        { intros p Hp. apply Hfilter in Hp. destruct Hp as (Eb & _).
          injection Eb as ->. discriminate. }
        destruct (generatePair [] (asReply (Object b))) as [p |];
          [ now contradiction (Hno p) | reflexivity ].
Qed.

(** [proxy_agrees_with_direct] on the content [{"safe": 1, "leap": "x"}]:
    the route answers 200 with it and the earlier [generatePair] returns
    it, while the filtering one returns null. *)
Lemma proxy_agrees_with_direct_witness :
  POST (Object (mkParsed (NonString true) (Str "x")))
    = Json200 (mkParsed (NonString true) (Str "x")) /\
  generatePairPositioned (Object (mkParsed (NonString true) (Str "x")))
    = Some (mkParsed (NonString true) (Str "x")) /\
  generatePair [] (asReply (Object (mkParsed (NonString true) (Str "x")))) = None.
Proof.
  pose (b := mkParsed (NonString true) (Str "x")).
  destruct (proxy_agrees_with_direct (Object b)) as (H1 & _ & _ & _ & _ & _ & H7).
  assert (Hp : generatePairPositioned (Object b) = Some b) by reflexivity.
  split; [ exact (proj2 (H1 b) Hp) | ]. split; [ exact Hp | ].
  apply (proj2 H7). exists b. repeat split.
Defined.

(** X12: the hard filter only narrows what the earlier [generatePair]
    accepts.  What the earlier one refuses the filter refuses for every
    sentence; and a pair the filter returns is made of the words of the
    pair the earlier one returns: either that pair itself, or one of its
    words on both sides. *)
Theorem filter_narrows_plain_check (ws : list string) (c : Completion) :
  (generatePairPositioned c = None -> generatePair ws (asReply c) = None) /\
  (forall p : WordPair,
     generatePair ws (asReply c) = Some p ->
     exists q : WordPair,
       generatePairPositioned c = Some (jsonOf q) /\
       (p = q \/ p = mkPair (leap q) (leap q) \/ p = mkPair (safe q) (safe q))).
Proof.
  assert (Hsome : forall p : WordPair,
            generatePair ws (asReply c) = Some p ->
            exists q : WordPair,
              generatePairPositioned c = Some (jsonOf q) /\
              (p = q \/ p = mkPair (leap q) (leap q) \/ p = mkPair (safe q) (safe q))).
  { intros p H.
    destruct (generatePair_asReply_some ws c p H) as (q & -> & Hs & Hl & Hv).
    exists q. split.
    - apply generatePairPositioned_some. split; [ reflexivity | ].
      cbn [jsonOf parsed_safe parsed_leap]. now rewrite !truthy_Str.
    - unfold validate in Hv. cbn [raw_safe raw_leap] in Hv.
      rewrite (falsy_some _ Hs), (falsy_some _ Hl) in Hv. cbn [orb] in Hv.
      destruct q as [s l]. cbn [safe leap] in *.
      destruct (Js.has (usedWordsOf ws) (clean s)),
               (Js.has (usedWordsOf ws) (clean l));
        cbn in Hv; try discriminate; injection Hv as <-; cbn; auto. }
  split; [ | exact Hsome ].
  intros Hnone. destruct (generatePair ws (asReply c)) as [p |] eqn:Eg;
    [ exfalso | reflexivity ].
  destruct (Hsome p eq_refl) as (q & Hq & _). congruence.
Qed.

(** [filter_narrows_plain_check] on the repair of the specification's
    example. *)
Lemma filter_narrows_plain_check_witness :
  generatePair ["the"] (asReply (Object (jsonOf (mkPair "the" "window"))))
    = Some (mkPair "window" "window") /\
  generatePairPositioned (Object (jsonOf (mkPair "the" "window")))
    = Some (jsonOf (mkPair "the" "window")).
Proof.
  split; [ reflexivity | ].
  destruct (proj2 (filter_narrows_plain_check ["the"]
                     (Object (jsonOf (mkPair "the" "window"))))
              (mkPair "window" "window") eq_refl) as (q & Hq & _).
  vm_compute in Hq. vm_compute. reflexivity.
Defined.

(** X13: the arithmetic of the positioned builder.  Unless the position
    is "first" it uses the ending template from eight words on and the
    continuation template below; and the continuation template always
    announces a sentence of 10 words, whatever target the page has drawn. *)
Theorem positioned_prompt_arithmetic (ws : list string) (position : string) :
  match positionPrompt ws position with
  | AskFirst => position = "first"
  | AskEnding sentence count =>
      position <> "first" /\ 8 <= len ws /\ count = len ws /\
      sentence = Js.join " " ws
  | AskNext sentence total wordNo =>
      position <> "first" /\ len ws <= 7 /\ total = 10 /\ wordNo = len ws + 1 /\
      sentence = Js.join " " ws
  end.
Proof.
  unfold positionPrompt.
  destruct (String.eqb_spec position "first") as [E | E]; [ exact E | ].
  destruct (Z.max 0 (10 - len ws) <=? 2) eqn:E2.
  - repeat split; auto. lia.
  - assert (0 <= len ws) by (unfold len; lia). repeat split; auto; lia.
Qed.

(** ** Patient runs: what lands is what was on show *)

Lemma current_ext (h h' : Home) (t : Task) :
  words h' = words h -> currentPair h' = currentPair h ->
  current h t -> current h' t.
Proof.
  intros Hw Hp. destruct t as [[| |] cw | c ws pf]; cbn; rewrite ?Hw, ?Hp; auto.
Qed.

Lemma upToDate_ext (w w' : World) :
  words (home w') = words (home w) ->
  currentPair (home w') = currentPair (home w) ->
  tasks w' = tasks w -> upToDate w -> upToDate w'.
Proof.
  intros Hw Hp Ht. unfold upToDate. rewrite Ht.
  apply Forall_impl. intros [i t]. now apply current_ext.
Qed.

Lemma prefetch_current (h : Home) (ts : list (nat * Task)) :
  Forall (fun entry => isPrefetch entry = true) ts ->
  Forall (fun entry => current h (snd entry)) ts.
Proof.
  apply Forall_impl. intros [i t]. unfold isPrefetch. cbn [snd].
  destruct t as [[| |] ws' | c ws' pf]; cbn; try discriminate. trivial.
Qed.

(** A suspended [beginSentence] stays up to date as long as the sentence
    is empty. *)
Lemma quiet_current (h h' : Home) (ts : list (nat * Task)) :
  words h' = [] ->
  Forall (fun entry => (isPrefetch entry || awaitsBegin (snd entry))%bool = true) ts ->
  Forall (fun entry => current h (snd entry)) ts ->
  Forall (fun entry => current h' (snd entry)) ts.
Proof.
  intros Hnil Hq. induction Hq as [| [i t] ts Ht _ IH];
    intros Hc; inversion Hc as [| x l Hx Hl]; subst; constructor; auto.
  unfold isPrefetch in Ht. cbn [snd] in *.
  destruct t as [[| |] ws' | c ws' pf]; cbn in *; try discriminate; auto.
  destruct Hx as [-> _]. auto.
Qed.

Lemma beginSentence_words (w : World) : words (home (beginSentence w)) = [].
Proof.
  unfold beginSentence, fetchPair. cbn. destruct (groqRef (home w)); reflexivity.
Qed.

Lemma beginSentence_upToDate (w : World) :
  Forall (fun entry => (isPrefetch entry || awaitsBegin (snd entry))%bool = true) (tasks w) ->
  upToDate w -> upToDate (beginSentence w).
Proof.
  intros Hq Hu. unfold upToDate.
  assert (Hold : Forall (fun entry => current (home (beginSentence w)) (snd entry))
                   (tasks w))
    by (apply (quiet_current (home w)); auto using beginSentence_words).
  pose proof (beginSentence_words w) as Hnil. revert Hold Hnil.
  unfold beginSentence, fetchPair. cbn.
  destruct (groqRef (home w)); cbn; intros Hold Hnil; [ | exact Hold ].
  apply Forall_app. split; [ exact Hold | ].
  constructor; [ cbn; auto | constructor ].
Qed.

Lemma effects_upToDate (before : Home) (w : World) :
  calmInvariant w -> upToDate w -> upToDate (effects before w).
Proof.
  intros Hw Hu. unfold effects.
  match goal with |- context [if ?c then _ else _] => destruct c eqn:E end;
    [ | exact Hu ].
  apply andb_prop in E. destruct E as [_ E]. apply phase_eqb_eq in E.
  destruct Hw as [_ _ _ _ Hs].
  apply beginSentence_upToDate; [ | exact Hu ].
  apply (shape_quiet _ _ _ _ Hs). rewrite E. discriminate.
Qed.

(** What [chooseWord] does when its guard lets it through. *)
Lemma chooseWord_view (side : Side) (w : World) (p : WordPair) :
  phase (home w) = Choosing -> currentPair (home w) = Some p ->
  words (home (chooseWord side w)) = words (home w) /\
  phase (home (chooseWord side w)) = Dissolving /\
  exists (n : nat) (extra : list (nat * Task)),
    Forall (fun entry => isPrefetch entry = true) extra /\
    tasks (chooseWord side w) =
      tasks w ++ extra ++
        [(n, AwaitSettle (pick p side) (words (home w)) (prefetchedPair (home w)))].
Proof.
  intros Ep Ec. unfold chooseWord. rewrite Ep, Ec. cbn [spawn home tasks].
  set (w1 := onHome (fun x => setPhase Dissolving (setChosenSide (Some side) x)) w).
  match goal with |- context [if ?c then _ else _] => destruct c end.
  - destruct (prefetchNext_view (words (home w)) (pick p side) w1)
      as (V1 & V2 & V3 & extra & Hextra & V4).
    rewrite V1, V2, V4. repeat split.
    exists (nextId (prefetchNext (words (home w)) (pick p side) w1)), extra.
    split; [ exact Hextra | ]. cbn. now rewrite <- app_assoc.
  - repeat split. exists (nextId w1), []. split; [ constructor | reflexivity ].
Qed.

Lemma chooseWord_upToDate (side : Side) (w : World) :
  upToDate w -> upToDate (chooseWord side w).
Proof.
  intros Hu.
  destruct (phase (home w)) eqn:Ep;
    try (unfold chooseWord; rewrite Ep; exact Hu).
  destruct (currentPair (home w)) as [p |] eqn:Ec;
    [ | unfold chooseWord; rewrite Ep, Ec; exact Hu ].
  destruct (chooseWord_view side w p Ep Ec) as (V1 & _ & n & extra & Hextra & V2).
  pose proof (chooseWord_pair side w) as V3.
  unfold upToDate. rewrite V2, !Forall_app. repeat split.
  - revert Hu. apply Forall_impl. intros [i t]. now apply current_ext.
  - now apply prefetch_current.
  - constructor; [ | constructor ]. cbn [snd current]. rewrite V1, V3, Ec.
    split; [ reflexivity | ]. exists p. split; [ reflexivity | ].
    destruct side; cbn; auto.
Qed.

Lemma settle_upToDate (c : string) (ws : list string) (pf : option WordPair) (w : World) :
  Forall (fun entry => isPrefetch entry = true) (tasks w) ->
  upToDate (settle c ws pf w).
Proof.
  intros Hall. unfold upToDate, settle. cbn [onHome home targetLength setWords].
  match goal with |- context [if ?c then _ else _] => destruct c end.
  - destruct (negb (Js.endsWithPeriod c)); cbn; now apply prefetch_current.
  - destruct pf as [p |]; [ cbn; now apply prefetch_current | ].
    unfold fetchPair. cbn. destruct (groqRef (home w)); cbn.
    + apply Forall_app. split; [ now apply prefetch_current | ].
      constructor; [ reflexivity | constructor ].
    + now apply prefetch_current.
Qed.

Lemma resumePair_words (who : Awaiter) (pair : option WordPair) (h : Home) :
  words (resumePair who pair h) = words h.
Proof. destruct who, pair; reflexivity. Qed.

Lemma handle_upToDate (w w' : World) (e : Event) :
  calmInvariant w -> upToDate w -> (userEvent e = true -> idle w = true) ->
  handle w e = Some w' -> upToDate w'.
Proof.
  intros Hw Hu Hidle. destruct e; cbn [handle userEvent] in *.
  - destruct (phase_eqb _ _); [ | discriminate ]. intros [= <-]. exact Hu.
  - destruct (phase_eqb _ _); [ | discriminate ]. intros [= <-].
    unfold submitKey. destruct (String.eqb _ _); [ exact Hu | ].
    now apply (upToDate_ext w).
  - destruct (_ && _)%bool; [ | discriminate ]. intros [= <-].
    now apply (upToDate_ext w).
  - intros [= <-]. now apply chooseWord_upToDate.
  - destruct (phase_eqb _ _); [ | discriminate ]. intros [= <-].
    apply beginSentence_upToDate; [ | exact Hu ].
    apply prefetch_quiet, idle_all_prefetch. auto.
  - destruct (take id (tasks w)) as [[[who ws | c ws pf] rest] |] eqn:Et;
      try discriminate.
    intros [= <-]. destruct Hw as [_ _ _ _ Hs].
    pose proof (take_foreground _ _ _ _ Et) as Hcount. cbn [awaitsPrefetch] in Hcount.
    apply settle_upToDate. cbn [withTasks tasks].
    destruct Hs as [Hall | _ _ Hq | Hph Hone Hfits].
    + now apply (take_Forall _ _ _ _ _ Et) in Hall.
    + apply (take_Forall _ _ _ _ _ Et) in Hq. destruct Hq as [Hbad _].
      discriminate.
    + apply no_foreground. lia.
  - destruct (take id (tasks w)) as [[[who ws | c ws pf] rest] |] eqn:Et;
      try discriminate.
    intros [= <-]. destruct Hw as [_ _ _ _ Hs].
    pose proof (take_foreground _ _ _ _ Et) as Hcount.
    destruct (take_Forall _ _ _ _ _ Et Hu) as [_ Hrest].
    unfold upToDate. cbn [onHome withTasks home tasks].
    destruct who.
    + destruct Hs as [Hall | Hnil Hnc Hq | Hph Hone Hfits].
      * apply (take_Forall _ _ _ _ _ Et) in Hall. destruct Hall as [Hbad _].
        discriminate.
      * apply (take_Forall _ _ _ _ _ Et) in Hq. destruct Hq as [_ Hq].
        apply (quiet_current (home w)); auto.
        now rewrite resumePair_words.
      * apply (take_Forall _ _ _ _ _ Et) in Hfits. destruct Hfits as [[] _].
    + cbn [awaitsPrefetch] in Hcount.
      destruct Hs as [Hall | Hnil Hnc Hq | Hph Hone Hfits].
      * apply (take_Forall _ _ _ _ _ Et) in Hall. destruct Hall as [Hbad _].
        discriminate.
      * apply (take_Forall _ _ _ _ _ Et) in Hq. destruct Hq as [Hbad _].
        discriminate.
      * apply prefetch_current, no_foreground. lia.
    + revert Hrest. apply Forall_impl. intros [i t].
      apply current_ext; [ apply resumePair_words | ].
      destruct (generatePair ws reply); reflexivity.
Qed.

Lemma step_upToDate (w w' : World) (e : Event) :
  calmInvariant w -> upToDate w -> (userEvent e = true -> idle w = true) ->
  step w e = Some w' -> upToDate w'.
Proof.
  intros Hw Hu Hidle. unfold step.
  destruct (handle w e) as [w1 |] eqn:E; [ | discriminate ].
  intros [= <-]. apply effects_upToDate.
  - exact (handle_calm _ _ _ Hw Hidle E).
  - exact (handle_upToDate _ _ _ Hw Hu Hidle E).
Qed.

Lemma calm_reachable_upToDate (w : World) : CalmReachable w -> upToDate w.
Proof.
  induction 1 as [stored draw future Hd | w w' e Hr IH Hidle Hs].
  - unfold mount. apply effects_upToDate.
    + destruct stored as [key |]; [ destruct (String.eqb key "") | ];
        unfold calmInvariant; cbn -[Z.add];
        (constructor; try discriminate; try (unfold len; cbn -[Z.add]; lia);
         apply shape_idle; constructor).
    + destruct stored as [key |]; [ destruct (String.eqb key "") | ]; constructor.
  - exact (step_upToDate _ _ _ (calm_reachable_invariant w Hr) IH Hidle Hs).
Qed.

Lemma fetchPair_words (who : Awaiter) (ws : list string) (w : World) :
  words (home (fetchPair who ws w)) = words (home w).
Proof.
  unfold fetchPair. destruct (groqRef (home w)); cbn; [ reflexivity | ].
  apply resumePair_words.
Qed.

Lemma effects_words (before : Home) (w : World) :
  words (home (effects before w)) = words (home w) \/
  words (home (effects before w)) = [].
Proof.
  unfold effects.
  match goal with |- context [if ?c then _ else _] => destruct c end; auto.
  right. apply beginSentence_words.
Qed.

Lemma effects_not_waiting (before : Home) (w : World) :
  phase (home w) <> Waiting -> effects before w = w.
Proof.
  intros Hp. unfold effects.
  destruct (phase_eqb (phase (home w)) Waiting) eqn:E.
  - apply phase_eqb_eq in E. contradiction.
  - now rewrite andb_false_r.
Qed.

Lemma settle_words (c : string) (ws : list string) (pf : option WordPair) (w : World) :
  words (home (settle c ws pf w)) =
    ws ++ [if seals (targetLength (home w)) ws c then sealed c else c].
Proof.
  unfold settle, seals, sealed. cbn [onHome home targetLength setWords].
  destruct (targetLength (home w) <=? len (ws ++ [c]));
    destruct (Js.endsWithPeriod c); cbn [orb negb]; try reflexivity.
  - cbn. now rewrite setLast_snoc.
  - destruct pf as [p |]; [ reflexivity | ]. now rewrite fetchPair_words.
Qed.

Lemma settle_phase (c : string) (ws : list string) (pf : option WordPair) (w : World) :
  phase (home (settle c ws pf w)) = Complete \/
  phase (home (settle c ws pf w)) = Choosing \/
  phase (home (settle c ws pf w)) = phase (home w).
Proof.
  unfold settle. cbn [onHome home targetLength setWords].
  match goal with |- context [if ?c then _ else _] => destruct c end.
  - left. destruct (negb (Js.endsWithPeriod c)); reflexivity.
  - destruct pf as [p |]; [ right; left; reflexivity | ].
    right; right. unfold fetchPair. cbn. destruct (groqRef (home w)); reflexivity.
Qed.

Lemma handle_words (w w' : World) (e : Event) :
  (forall id : nat, e <> Settled id) -> handle w e = Some w' ->
  words (home w') = words (home w) \/ words (home w') = [].
Proof.
  intros He. destruct e; cbn [handle].
  - destruct (phase_eqb _ _); [ | discriminate ]. intros [= <-]. now left.
  - destruct (phase_eqb _ _); [ | discriminate ]. intros [= <-].
    unfold submitKey. destruct (String.eqb _ _); now left.
  - destruct (_ && _)%bool; [ | discriminate ]. intros [= <-]. now left.
  - intros [= <-]. left.
    destruct (phase (home w)) eqn:Ep;
      try (unfold chooseWord; rewrite Ep; reflexivity).
    destruct (currentPair (home w)) as [p |] eqn:Ec;
      [ | unfold chooseWord; rewrite Ep, Ec; reflexivity ].
    apply (chooseWord_view side w p Ep Ec).
  - destruct (phase_eqb _ _); [ | discriminate ]. intros [= <-].
    right. apply beginSentence_words.
  - now contradiction (He id).
  - destruct (take id (tasks w)) as [[[who ws | c ws pf] rest] |]; try discriminate.
    intros [= <-]. left. cbn. apply resumePair_words.
Qed.

(** The world an event leads to, computed. *)
Ltac evolve name w e :=
  let x := eval vm_compute in
             (match step w e with Some y => y | None => w end) in
  pose (name := x).

(** X14: with a patient user the sentence only grows, by the word that
    was chosen from the pair on show.  When the pause of a choice ends,
    the chosen word is one of the two words of the current pair and the
    sentence becomes the sentence as it stands followed by that word,
    sealed with a period exactly when the phase becomes [complete]; every
    other event leaves the sentence as it is or empties it. *)
Theorem patient_sentence_only_grows (w w' : World) (e : Event) :
  CalmReachable w -> (userEvent e = true -> idle w = true) ->
  step w e = Some w' ->
  match e with
  | Settled _ =>
      exists (p : WordPair) (c : string),
        currentPair (home w) = Some p /\ (c = safe p \/ c = leap p) /\
        words (home w') =
          words (home w) ++
            [if seals (targetLength (home w)) (words (home w)) c
             then sealed c else c] /\
        (phase (home w') = Complete <->
         seals (targetLength (home w)) (words (home w)) c = true)
  | _ => words (home w') = words (home w) \/ words (home w') = []
  end.
Proof.
  intros Hr Hidle Hstep.
  pose proof (calm_reachable_invariant w Hr) as Hinv.
  pose proof (calm_reachable_upToDate w Hr) as Hu.
  assert (Hother : (forall id : nat, e <> Settled id) ->
                   words (home w') = words (home w) \/ words (home w') = []).
  { intros He. unfold step in Hstep.
    destruct (handle w e) as [w1 |] eqn:Eh; [ | discriminate ].
    injection Hstep as <-.
    destruct (effects_words (home w) w1) as [E | E]; [ | now right ].
    rewrite E. exact (handle_words w w1 e He Eh). }
  destruct e; try (apply Hother; intros; discriminate).
  clear Hother Hidle. unfold step in Hstep. cbn [handle] in Hstep.
  destruct (take id (tasks w)) as [[[who ws | c ws pf] rest] |] eqn:Et;
    try discriminate.
  injection Hstep as <-.
  destruct (take_Forall _ _ _ _ _ Et Hu) as [[Hws (p & Hp & Hc)] _].
  cbn [snd] in Hws. subst ws.
  assert (Hph : phase (home w) = Dissolving).
  { destruct Hinv as [_ _ _ _ [Hall | _ _ Hq | Hph _ _]]; [ | | exact Hph ].
    - apply (take_Forall _ _ _ _ _ Et) in Hall. destruct Hall as [Hbad _].
      discriminate.
    - apply (take_Forall _ _ _ _ _ Et) in Hq. destruct Hq as [Hbad _].
      discriminate. }
  set (w1 := settle c (words (home w)) pf (withTasks rest w)).
  assert (Heff : effects (home w) w1 = w1).
  { apply effects_not_waiting.
    destruct (settle_phase c (words (home w)) pf (withTasks rest w)) as [E | [E | E]];
      fold w1 in E; rewrite E; cbn [withTasks home]; congruence. }
  rewrite Heff. exists p, c. split; [ exact Hp | ]. split; [ exact Hc | ].
  split; [ exact (settle_words c (words (home w)) pf (withTasks rest w)) | ].
  unfold w1. rewrite settle_seals_exactly_when
    by (cbn [withTasks home]; congruence).
  cbn [withTasks home]. unfold seals. rewrite len_snoc, orb_true_iff, Z.leb_le.
  reflexivity.
Qed.

(** [patient_sentence_only_grows] on the first choice of a mounted page:
    "the" lands, unsealed. *)
Lemma patient_sentence_only_grows_witness :
  exists w w' : World,
    CalmReachable w /\ step w (Settled 2) = Some w' /\
    words (home w') = ["the"].
Proof.
  pose (w0 := mounted).
  evolve w1 w0 (Answered 0 (replyWith "the" "beneath")).
  evolve w2 w1 (Picked Safe).
  evolve w3 w2 (Settled 2).
  assert (H0 : CalmReachable w0) by (apply calm_mount; lia).
  assert (H1 : CalmReachable w1).
  { apply (calm_step w0 w1 (Answered 0 (replyWith "the" "beneath")) H0);
      [ discriminate | vm_compute; reflexivity ]. }
  assert (H2 : CalmReachable w2).
  { apply (calm_step w1 w2 (Picked Safe) H1);
      [ intros _; vm_compute; reflexivity | vm_compute; reflexivity ]. }
  assert (S3 : step w2 (Settled 2) = Some w3) by (vm_compute; reflexivity).
  exists w2, w3. split; [ exact H2 | ]. split; [ exact S3 | ].
  destruct (patient_sentence_only_grows w2 w3 (Settled 2) H2
              ltac:(discriminate) S3) as (p & c & _ & _ & Hw & _).
  vm_compute. reflexivity.
Defined.

Lemma validate_fresh (raw : RawPair) (U : list string) (p : WordPair) :
  validate raw U = Some p ->
  ~ In (clean (safe p)) U /\ ~ In (clean (leap p)) U.
Proof.
  intros Hv. unfold validate in Hv.
  destruct (falsy (raw_safe raw)) eqn:Es; [ discriminate | ].
  destruct (falsy (raw_leap raw)) eqn:El; [ discriminate | ].
  cbn [orb] in Hv.
  destruct (raw_safe raw) as [s |]; [ | discriminate ].
  destruct (raw_leap raw) as [l |]; [ | discriminate ].
  destruct (Js.has U (clean s)) eqn:Hs, (Js.has U (clean l)) eqn:Hl;
    cbn in Hv; try discriminate;
    injection Hv as <-; cbn [safe leap];
    rewrite <- ?JsFacts.has_false; auto.
Qed.

(** X15: with a patient user a freshly fetched pair repeats no word of
    the sentence.  When the endpoint answers the request of
    [beginSentence] or of [chooseWord] with a pair, the request was made
    for the sentence as it stands, the pair becomes the current pair in
    phase [choosing], and neither of its words cleans to the cleaned form
    of a word of the sentence on the page. *)
Theorem fresh_pair_avoids_the_sentence (w w' : World) (id : nat)
    (reply : OracleReply) (who : Awaiter) (cw : list string)
    (rest : list (nat * Task)) (p : WordPair) :
  CalmReachable w ->
  take id (tasks w) = Some (AwaitPair who cw, rest) -> who <> ForPrefetch ->
  generatePair cw reply = Some p ->
  step w (Answered id reply) = Some w' ->
  cw = words (home w) /\
  words (home w') = words (home w) /\
  phase (home w') = Choosing /\
  currentPair (home w') = Some p /\
  forall (side : Side) (x : string),
    In x (words (home w')) -> clean (pick p side) <> clean x.
Proof.
  intros Hr Et Hwho Hgen Hstep.
  pose proof (calm_reachable_upToDate w Hr) as Hu.
  destruct (take_Forall _ _ _ _ _ Et Hu) as [Hcur _]. cbn [snd] in Hcur.
  assert (Hcw : cw = words (home w)).
  { destruct who; cbn in Hcur; [ | exact Hcur | contradiction ].
    destruct Hcur as [-> ->]. reflexivity. }
  unfold step in Hstep. cbn [handle] in Hstep. rewrite Et, Hgen in Hstep.
  set (w1 := onHome (resumePair who (Some p)) (withTasks rest w)) in Hstep.
  assert (Hph : phase (home w1) = Choosing)
    by (destruct who; [ reflexivity | reflexivity | contradiction ]).
  rewrite effects_not_waiting in Hstep by (rewrite Hph; discriminate).
  injection Hstep as <-.
  assert (Hwords : words (home w1) = words (home w))
    by (cbn; apply resumePair_words).
  split; [ exact Hcw | ]. split; [ exact Hwords | ]. split; [ exact Hph | ].
  split; [ destruct who; [ reflexivity | reflexivity | contradiction ] | ].
  intros side x Hin Heq. rewrite Hwords, <- Hcw in Hin.
  destruct reply as [| | | raw]; try discriminate. cbn [generatePair] in Hgen.
  destruct (validate_fresh raw _ p Hgen) as [Hs Hl].
  assert (Hused : In (clean x) (usedWordsOf cw)).
  { unfold usedWordsOf. apply JsFacts.setOf_In. now apply in_map. }
  rewrite <- Heq in Hused. destruct side; cbn [pick] in Hused; tauto.
Qed.

(** [fresh_pair_avoids_the_sentence] after the first word: the endpoint
    repeats "the", and the pair on show is the repaired one. *)
Lemma fresh_pair_avoids_the_sentence_witness :
  exists w w' : World,
    CalmReachable w /\
    step w (Answered 3 (replyWith "the" "window")) = Some w' /\
    words (home w') = ["the"] /\
    currentPair (home w') = Some (mkPair "window" "window").
Proof.
  pose (w0 := mounted).
  evolve w1 w0 (Answered 0 (replyWith "the" "beneath")).
  evolve w2 w1 (Picked Safe).
  evolve w3 w2 (Answered 1 Rejected).
  evolve w4 w3 (Settled 2).
  evolve w5 w4 (Answered 3 (replyWith "the" "window")).
  assert (H0 : CalmReachable w0) by (apply calm_mount; lia).
  assert (H1 : CalmReachable w1).
  { apply (calm_step w0 w1 (Answered 0 (replyWith "the" "beneath")) H0);
      [ discriminate | vm_compute; reflexivity ]. }
  assert (H2 : CalmReachable w2).
  { apply (calm_step w1 w2 (Picked Safe) H1);
      [ intros _; vm_compute; reflexivity | vm_compute; reflexivity ]. }
  assert (H3 : CalmReachable w3).
  { apply (calm_step w2 w3 (Answered 1 Rejected) H2);
      [ discriminate | vm_compute; reflexivity ]. }
  assert (H4 : CalmReachable w4).
  { apply (calm_step w3 w4 (Settled 2) H3);
      [ discriminate | vm_compute; reflexivity ]. }
  assert (S5 : step w4 (Answered 3 (replyWith "the" "window")) = Some w5)
    by (vm_compute; reflexivity).
  exists w4, w5. split; [ exact H4 | ]. split; [ exact S5 | ].
  destruct (fresh_pair_avoids_the_sentence w4 w5 3 (replyWith "the" "window")
              ForNext ["the"] [] (mkPair "window" "window") H4
              ltac:(vm_compute; reflexivity) ltac:(discriminate)
              ltac:(vm_compute; reflexivity) S5)
    as (_ & Hw & _ & Hp & _).
  split; [ rewrite Hw; vm_compute; reflexivity | exact Hp ].
Defined.

(* ===================================================================== *)
(** * The proxied page *)
(* ===================================================================== *)

Import Proxied.

Lemma proxied_prefetchNext_view (cw : list string) (c : string) (w : World) :
  home (prefetchNext cw c w) = home w \/
  home (prefetchNext cw c w) = setPrefetchRef true (home w).
Proof.
  unfold prefetchNext. destruct (prefetchRef (home w)); [ now left | now right ].
Qed.

Lemma proxied_prefetchNext_tasks (cw : list string) (c : string) (w : World) :
  exists extra : list (nat * Task),
    Forall (fun entry => isPrefetch entry = true) extra /\
    tasks (prefetchNext cw c w) = tasks w ++ extra.
Proof.
  unfold prefetchNext. destruct (prefetchRef (home w)).
  - exists []. split; [ constructor | now rewrite app_nil_r ].
  - eexists [_]. split; [ | reflexivity ]. constructor; [ reflexivity | constructor ].
Qed.

(** What [chooseWord] does when its guard lets it through. *)
Lemma proxied_chooseWord_view (side : Side) (w : World) (p : WordPair) :
  phase (home w) = Choosing -> currentPair (home w) = Some p ->
  words (home (chooseWord side w)) = words (home w) /\
  targetLength (home (chooseWord side w)) = targetLength (home w) /\
  currentPair (home (chooseWord side w)) = Some p /\
  phase (home (chooseWord side w)) = Dissolving /\
  exists (n : nat) (extra : list (nat * Task)),
    Forall (fun entry => isPrefetch entry = true) extra /\
    tasks (chooseWord side w) =
      tasks w ++ extra ++
        [(n, AwaitSettle (pick p side) (words (home w)) (prefetchedPair (home w)))].
Proof.
  intros Ep Ec. unfold chooseWord. rewrite Ep, Ec. cbn [home tasks].
  set (w1 := onHome (fun x => setPhase Dissolving (setChosenSide (Some side) x)) w).
  match goal with |- context [if ?c then _ else _] => destruct c end.
  - destruct (proxied_prefetchNext_tasks (words (home w)) (pick p side) w1)
      as (extra & Hextra & V).
    rewrite V.
    assert (Hh : words (home (prefetchNext (words (home w)) (pick p side) w1))
                   = words (home w) /\
                 targetLength (home (prefetchNext (words (home w)) (pick p side) w1))
                   = targetLength (home w) /\
                 currentPair (home (prefetchNext (words (home w)) (pick p side) w1))
                   = Some p /\
                 phase (home (prefetchNext (words (home w)) (pick p side) w1))
                   = Dissolving)
      by (destruct (proxied_prefetchNext_view (words (home w)) (pick p side) w1)
            as [-> | ->]; cbn; auto).
    destruct Hh as (H1 & H2 & H3 & H4). repeat (split; [ assumption | ]).
    exists (nextId (prefetchNext (words (home w)) (pick p side) w1)), extra.
    split; [ exact Hextra | ]. cbn. now rewrite <- app_assoc.
  - cbn. repeat (split; [ auto | ]).
    exists (nextId w), []. split; [ constructor | reflexivity ].
Qed.

Lemma proxied_chooseWord_guard (side : Side) (w : World) :
  phase (home w) <> Choosing \/ currentPair (home w) = None ->
  chooseWord side w = w.
Proof.
  intros [H | H]; unfold chooseWord.
  - destruct (phase (home w)); try reflexivity. contradiction.
  - rewrite H. destruct (phase (home w)); reflexivity.
Qed.

Lemma foreground_snoc (ts : list (nat * Task)) (i : nat) (t : Task) :
  length (filter foreground (ts ++ [(i, t)])) =
    (length (filter foreground ts) + (if awaitsPrefetch t then 0 else 1))%nat.
Proof.
  rewrite filter_app, length_app. f_equal.
  cbn [filter]. unfold foreground, isPrefetch. cbn [snd].
  destruct (awaitsPrefetch t); reflexivity.
Qed.

Lemma mount_steady (draw : Z) : 0 <= draw <= 4 -> steady (mount draw).
Proof.
  intros Hd. unfold steady, mount, beginSentence, fetchPair. cbn -[Z.add].
  split; [ lia | ]. split; [ unfold len; cbn -[Z.add]; lia | ].
  split; [ lia | ]. split; [ reflexivity | ].
  constructor; [ reflexivity | constructor ].
Qed.

Lemma chooseWord_steady (side : Side) (w : World) :
  steady w -> steady (chooseWord side w).
Proof.
  intros Hw.
  destruct (phase (home w)) eqn:Ep;
    try (rewrite proxied_chooseWord_guard; [ exact Hw | left; congruence ]).
  destruct (currentPair (home w)) as [p |] eqn:Ec;
    [ | rewrite proxied_chooseWord_guard; [ exact Hw | now right ] ].
  destruct (proxied_chooseWord_view side w p Ep Ec)
    as (V1 & V2 & _ & V4 & n & extra & Hextra & V5).
  unfold steady in *. cbn zeta in *. rewrite Ep in Hw.
  destruct Hw as (HT & Hl & _ & Hc & _ & Hall).
  rewrite V1, V2, V4, V5.
  split; [ exact HT | ]. split; [ exact Hl | ]. split.
  - rewrite app_assoc, foreground_snoc, filter_app, length_app.
    rewrite (all_prefetch_foreground _ Hall), (all_prefetch_foreground _ Hextra).
    cbn. lia.
  - rewrite !Forall_app. repeat split.
    + now apply prefetch_fits.
    + now apply prefetch_fits.
    + constructor; [ exact Hc | constructor ].
Qed.

Lemma beginSentence_steady (w : World) :
  8 <= targetLength (home w) <= 12 ->
  Forall (fun entry => isPrefetch entry = true) (tasks w) ->
  steady (beginSentence w).
Proof.
  intros HT Hall. unfold steady, beginSentence, fetchPair. cbn.
  split; [ exact HT | ]. split; [ unfold len; cbn; lia | ]. split.
  - rewrite foreground_snoc, (all_prefetch_foreground _ Hall). cbn. lia.
  - split; [ reflexivity | ]. apply Forall_app. split.
    + now apply prefetch_quiet.
    + constructor; [ reflexivity | constructor ].
Qed.

Lemma settle_steady (c : string) (ws : list string) (pf : option WordPair) (w : World) :
  8 <= targetLength (home w) <= 12 ->
  phase (home w) = Dissolving ->
  Forall (fun entry => isPrefetch entry = true) (tasks w) ->
  len ws < targetLength (home w) ->
  steady (settle c ws pf w).
Proof.
  intros HT Hph Hall Hfit. unfold settle. cbn [onHome home targetLength setWords].
  pose proof (all_prefetch_foreground _ Hall) as Hzero.
  destruct (targetLength (home w) <=? len (ws ++ [c])) eqn:Efull;
    destruct (Js.endsWithPeriod c) eqn:Edot; cbn [orb negb].
  - unfold steady. cbn. rewrite len_snoc.
    repeat (split; [ auto; lia | ]). exists ws, c. auto.
  - unfold steady. cbn. rewrite setLast_snoc, len_snoc.
    repeat (split; [ auto; lia | ]). exists ws, (c ++ ".")%string.
    split; [ reflexivity | apply JsFacts.endsWithPeriod_append ].
  - unfold steady. cbn. rewrite len_snoc.
    repeat (split; [ auto; lia | ]). exists ws, c. auto.
  - assert (Hshort : len (ws ++ [c]) < targetLength (home w)) by lia.
    destruct pf as [p |].
    + unfold steady. cbn.
      repeat (split; [ auto; try lia; try discriminate | ]). exact Hall.
    + unfold steady, fetchPair. cbn. rewrite Hph.
      split; [ exact HT | ]. split; [ lia | ]. split.
      * rewrite foreground_snoc, Hzero. cbn. lia.
      * apply Forall_app. split; [ now apply prefetch_fits | ].
        constructor; [ exact Hshort | constructor ].
Qed.

Lemma handle_steady (w w' : World) (e : Event) :
  steady w -> handle w e = Some w' -> steady w'.
Proof.
  intros Hw. destruct e as [side | | id | id result]; cbn [handle].
  - intros [= <-]. now apply chooseWord_steady.
  - destruct (phase (home w)) eqn:Ep; try discriminate. intros [= <-].
    unfold steady in Hw. cbn zeta in Hw. rewrite Ep in Hw.
    destruct Hw as (HT & _ & _ & Hall & _). now apply beginSentence_steady.
  - destruct (take id (tasks w)) as [[[who ws | c ws pf] rest] |] eqn:Et;
      try discriminate.
    intros [= <-].
    pose proof (take_foreground _ _ _ _ Et) as Hcount. cbn [awaitsPrefetch] in Hcount.
    unfold steady in Hw. cbn zeta in Hw.
    destruct Hw as (HT & Hl & Hone & Hs).
    destruct (phase (home w)) eqn:Ep.
    + destruct Hs as [_ Hq].
      apply (take_Forall _ _ _ _ _ Et) in Hq. destruct Hq as [Hbad _]. discriminate.
    + destruct Hs as (_ & _ & Hall).
      apply (take_Forall _ _ _ _ _ Et) in Hall. destruct Hall as [Hbad _].
      discriminate.
    + apply (take_Forall _ _ _ _ _ Et) in Hs. destruct Hs as [Hfit _].
      cbn [fits snd] in Hfit.
      apply settle_steady; cbn [withTasks home tasks]; auto.
      apply no_foreground. lia.
    + destruct Hs as [Hall _].
      apply (take_Forall _ _ _ _ _ Et) in Hall. destruct Hall as [Hbad _].
      discriminate.
  - destruct (take id (tasks w)) as [[[who ws | c ws pf] rest] |] eqn:Et;
      try discriminate.
    intros [= <-].
    pose proof (take_foreground _ _ _ _ Et) as Hcount.
    unfold steady in Hw. cbn zeta in Hw.
    destruct Hw as (HT & Hl & Hone & Hs).
    destruct who.
    + (* beginSentence resumes *)
      cbn [awaitsPrefetch] in Hcount.
      assert (Hrest : Forall (fun entry => isPrefetch entry = true) rest)
        by (apply no_foreground; lia).
      destruct (phase (home w)) eqn:Ep.
      * destruct Hs as [Hnil _].
        unfold steady. cbn [onHome withTasks home tasks resumePair resumeBegin].
        destruct (proxiedFetchPair result); cbn; rewrite ?Ep, Hnil;
          unfold len; cbn;
          repeat (split; [ auto; try lia; try discriminate | ]); auto.
        now apply prefetch_quiet.
      * destruct Hs as (_ & _ & Hall).
        apply (take_Forall _ _ _ _ _ Et) in Hall. destruct Hall as [Hbad _].
        discriminate.
      * apply (take_Forall _ _ _ _ _ Et) in Hs. destruct Hs as [[] _].
      * destruct Hs as [Hall _].
        apply (take_Forall _ _ _ _ _ Et) in Hall. destruct Hall as [Hbad _].
        discriminate.
    + (* chooseWord resumes after its fetch *)
      cbn [awaitsPrefetch] in Hcount.
      assert (Hrest : Forall (fun entry => isPrefetch entry = true) rest)
        by (apply no_foreground; lia).
      destruct (phase (home w)) eqn:Ep.
      * destruct Hs as [_ Hq].
        apply (take_Forall _ _ _ _ _ Et) in Hq. destruct Hq as [Hbad _].
        discriminate.
      * destruct Hs as (_ & _ & Hall).
        apply (take_Forall _ _ _ _ _ Et) in Hall. destruct Hall as [Hbad _].
        discriminate.
      * apply (take_Forall _ _ _ _ _ Et) in Hs. destruct Hs as [Hfit _].
        cbn [fits snd] in Hfit.
        unfold steady. cbn [onHome withTasks home tasks resumePair resumeNext].
        destruct (proxiedFetchPair result); cbn; rewrite ?Ep;
          repeat (split; [ auto; try lia; try discriminate | ]); auto.
        now apply prefetch_fits.
      * destruct Hs as [Hall _].
        apply (take_Forall _ _ _ _ _ Et) in Hall. destruct Hall as [Hbad _].
        discriminate.
    + (* prefetchNext resumes *)
      cbn [awaitsPrefetch] in Hcount.
      unfold steady. cbn. split; [ exact HT | ]. split; [ exact Hl | ].
      split; [ lia | ].
      destruct (phase (home w)).
      * destruct Hs as [Hnil Hq]. split; [ exact Hnil | ].
        now apply (take_Forall _ _ _ _ _ Et) in Hq.
      * destruct Hs as (Hc & Hp & Hall). split; [ exact Hc | ].
        split; [ exact Hp | ]. now apply (take_Forall _ _ _ _ _ Et) in Hall.
      * now apply (take_Forall _ _ _ _ _ Et) in Hs.
      * destruct Hs as [Hall Hd]. split; [ | exact Hd ].
        now apply (take_Forall _ _ _ _ _ Et) in Hall.
Qed.

Lemma reachable_steady (w : World) : Reachable w -> steady w.
Proof.
  induction 1 as [draw Hd | w w' e _ IH Hs].
  - now apply mount_steady.
  - exact (handle_steady _ _ _ IH Hs).
Qed.

(** X16: on the proxied page the sentence stays within the target in
    every run, whatever the user does and whenever the answers arrive.
    The target lies between 8 and 12; the sentence never has more words
    than the target; a pair is on offer only while the sentence is short
    of it; and a sentence in [complete] has at least one word, the last
    of which ends with a period. *)
Theorem proxied_sentence_within_target (w : World) :
  Reachable w ->
  8 <= targetLength (home w) <= 12 /\
  len (words (home w)) <= targetLength (home w) /\
  (phase (home w) = Choosing ->
     len (words (home w)) < targetLength (home w) /\ currentPair (home w) <> None) /\
  (phase (home w) = Complete ->
     1 <= len (words (home w)) /\
     Js.endsWithPeriod (last (words (home w)) "") = true).
Proof.
  intros Hr. pose proof (reachable_steady w Hr) as Hs.
  unfold steady in Hs. cbn zeta in Hs. destruct Hs as (HT & Hl & _ & Hs).
  split; [ exact HT | ]. split; [ exact Hl | ]. split.
  - intros Hp. rewrite Hp in Hs. destruct Hs as (Hc & Hpair & _). auto.
  - intros Hp. rewrite Hp in Hs. destruct Hs as (_ & body & final & Hw & Hdot).
    rewrite Hw, len_snoc, last_last.
    split; [ unfold len; lia | exact Hdot ].
Qed.

(** [proxied_sentence_within_target] on a page mounted with a draw of 2,
    once its first pair has arrived. *)
Lemma proxied_sentence_within_target_witness :
  exists w : World,
    Reachable w /\ phase (home w) = Choosing /\
    targetLength (home w) = 10 /\ len (words (home w)) < 10.
Proof.
  pose (w := onHome (resumePair ForBegin (Some (mkPair "the" "beneath")))
               (withTasks [] (mount 2))).
  assert (Hr : Reachable w).
  { apply (reach_step (mount 2) w
             (Responded 0 (Got (Ok200 (mkPair "the" "beneath"))))).
    - apply reach_mount. lia.
    - reflexivity. }
  exists w. split; [ exact Hr | ]. split; [ reflexivity | ].
  split; [ reflexivity | ].
  destruct (proxied_sentence_within_target w Hr) as (_ & _ & Hc & _).
  exact (proj1 (Hc eq_refl)).
Defined.

(** X17: the proxied page runs one handler at a time.  In every reachable
    world at most one handler other than a prefetch is suspended; in
    [choosing] and in [complete], the only phases in which a click or a
    key does anything, none is; and while [beginSentence] waits the
    sentence is empty. *)
Theorem proxied_one_handler_at_a_time (w : World) :
  Reachable w ->
  (length (filter foreground (tasks w)) <= 1)%nat /\
  (phase (home w) = Choosing \/ phase (home w) = Complete ->
     Forall (fun entry => isPrefetch entry = true) (tasks w)) /\
  (phase (home w) = Waiting -> words (home w) = []) /\
  (forall (e : Event) (w' : World),
     handle w e = Some w' -> w' <> w ->
     (exists side : Side, e = Picked side) \/ e = BeginAgain ->
     Forall (fun entry => isPrefetch entry = true) (tasks w)).
Proof.
  intros Hr. pose proof (reachable_steady w Hr) as Hs.
  unfold steady in Hs. cbn zeta in Hs. destruct Hs as (_ & _ & Hone & Hs).
  assert (Hidle : phase (home w) = Choosing \/ phase (home w) = Complete ->
                  Forall (fun entry => isPrefetch entry = true) (tasks w)).
  { intros [Hp | Hp]; rewrite Hp in Hs.
    - now destruct Hs as (_ & _ & Hall).
    - now destruct Hs as (Hall & _). }
  split; [ exact Hone | ]. split; [ exact Hidle | ]. split.
  - intros Hp. rewrite Hp in Hs. now destruct Hs.
  - intros e w' Hh Hne [[side ->] | ->]; cbn [handle] in Hh.
    + injection Hh as <-. apply Hidle. left.
      destruct (phase (home w)) eqn:Ep; try reflexivity;
        exfalso; apply Hne, proxied_chooseWord_guard; left; congruence.
    + apply Hidle. right. destruct (phase (home w)); try discriminate. reflexivity.
Qed.

(** [proxied_one_handler_at_a_time] on a freshly mounted page: the one
    suspended handler is [beginSentence]. *)
Lemma proxied_one_handler_at_a_time_witness :
  Reachable (mount 0) /\
  length (filter foreground (tasks (mount 0))) = 1%nat /\
  words (home (mount 0)) = [].
Proof.
  assert (Hr : Reachable (mount 0)) by (apply reach_mount; lia).
  split; [ exact Hr | ]. split; [ reflexivity | ].
  destruct (proxied_one_handler_at_a_time (mount 0) Hr) as (_ & _ & Hw & _).
  exact (Hw eq_refl).
Defined.

(** X18: a request that fails leaves the proxied page where it is, for
    good.  When the fetch of [beginSentence] or of [chooseWord] yields
    null, the phase stays as it was, [waiting] or [dissolving], and
    nothing but prefetches remains suspended; from such a world no event
    changes the phase, the sentence or the current pair, and no request
    is made. *)
Theorem proxied_failed_request_stalls :
  (forall (w w' : World) (id : nat) (result : Fetched) (who : Awaiter)
          (cw : list string) (rest : list (nat * Task)),
     Reachable w ->
     take id (tasks w) = Some (AwaitPair who cw, rest) -> who <> ForPrefetch ->
     proxiedFetchPair result = None ->
     handle w (Responded id result) = Some w' ->
     phase (home w') = phase (home w) /\
     (phase (home w') = Waiting \/ phase (home w') = Dissolving) /\
     Forall (fun entry => isPrefetch entry = true) (tasks w')) /\
  (forall (w w' : World) (e : Event),
     phase (home w) = Waiting \/ phase (home w) = Dissolving ->
     Forall (fun entry => isPrefetch entry = true) (tasks w) ->
     handle w e = Some w' ->
     phase (home w') = phase (home w) /\
     words (home w') = words (home w) /\
     currentPair (home w') = currentPair (home w) /\
     calls w' = calls w /\
     Forall (fun entry => isPrefetch entry = true) (tasks w')).
Proof.
  split.
  - intros w w' id result who cw rest Hr Et Hwho Hnull Hh.
    cbn [handle] in Hh. rewrite Et, Hnull in Hh. injection Hh as <-.
    pose proof (reachable_steady w Hr) as Hs.
    unfold steady in Hs. cbn zeta in Hs. destruct Hs as (_ & _ & Hone & Hs).
    pose proof (take_foreground _ _ _ _ Et) as Hcount.
    assert (Hfg : awaitsPrefetch (AwaitPair who cw) = false)
      by (destruct who; [ reflexivity | reflexivity | contradiction ]).
    rewrite Hfg in Hcount.
    assert (Hrest : Forall (fun entry => isPrefetch entry = true) rest)
      by (apply no_foreground; lia).
    assert (Hsame : phase (home (onHome (resumePair who None) (withTasks rest w)))
                      = phase (home w))
      by (destruct who; reflexivity).
    split; [ exact Hsame | ]. split; [ | exact Hrest ].
    rewrite Hsame. destruct (phase (home w)) eqn:Ep; auto; exfalso.
    + destruct Hs as (_ & _ & Hall).
      apply (take_Forall _ _ _ _ _ Et) in Hall. destruct Hall as [Hbad _].
      unfold isPrefetch in Hbad. cbn [snd] in Hbad. congruence.
    + destruct Hs as [Hall _].
      apply (take_Forall _ _ _ _ _ Et) in Hall. destruct Hall as [Hbad _].
      unfold isPrefetch in Hbad. cbn [snd] in Hbad. congruence.
  - intros w w' e Hp Hall Hh.
    destruct e as [side | | id | id result]; cbn [handle] in Hh.
    + injection Hh as <-. rewrite proxied_chooseWord_guard; auto.
      left. destruct Hp as [-> | ->]; discriminate.
    + destruct Hp as [Hp | Hp]; rewrite Hp in Hh; discriminate.
    + destruct (take id (tasks w)) as [[[who ws | c ws pf] rest] |] eqn:Et;
        try discriminate.
      apply (take_Forall _ _ _ _ _ Et) in Hall. destruct Hall as [Hbad _].
      discriminate.
    + destruct (take id (tasks w)) as [[[who ws | c ws pf] rest] |] eqn:Et;
        try discriminate.
      injection Hh as <-.
      apply (take_Forall _ _ _ _ _ Et) in Hall. destruct Hall as [Hpre Hrest].
      apply awaitsBegin_not_prefetch in Hpre. subst who.
      cbn. auto.
Qed.

(** [proxied_failed_request_stalls] on a page whose first fetch throws:
    the page stays in [waiting] with nothing suspended. *)
Lemma proxied_failed_request_stalls_witness :
  exists w' : World,
    handle (mount 0) (Responded 0 FetchThrew) = Some w' /\
    phase (home w') = Waiting /\ tasks w' = [] /\
    handle w' BeginAgain = None /\
    handle w' (Picked Safe) = Some w'.
Proof.
  pose (w' := onHome (resumePair ForBegin None) (withTasks [] (mount 0))).
  assert (Hh : handle (mount 0) (Responded 0 FetchThrew) = Some w') by reflexivity.
  exists w'. split; [ exact Hh | ].
  destruct (proj1 proxied_failed_request_stalls (mount 0) w' 0%nat FetchThrew
              ForBegin [] [] ltac:(apply reach_mount; lia) eq_refl
              ltac:(discriminate) eq_refl Hh) as (Hp & _ & _).
  split; [ rewrite Hp; reflexivity | ]. split; [ reflexivity | ].
  split; reflexivity.
Defined.

Lemma modest_onHome (f : Home -> Home) (w : World) :
  targetLength (f (home w)) = targetLength (home w) ->
  modest w -> modest (onHome f w).
Proof. unfold modest. cbn. intros ->. auto. Qed.

Lemma modest_fetchPair (who : Awaiter) (cw : list string) (w : World) :
  len cw < targetLength (home w) -> modest w -> modest (fetchPair who cw w).
Proof.
  unfold modest. cbn. intros Hlt [HT Hc]. split; [ exact HT | ].
  apply Forall_app. split; [ exact Hc | ]. constructor; [ exact Hlt | constructor ].
Qed.

Lemma modest_prefetchNext (cw : list string) (c : string) (w : World) :
  len (cw ++ [c]) < targetLength (home w) -> modest w -> modest (prefetchNext cw c w).
Proof.
  intros Hlt Hm. unfold prefetchNext. destruct (prefetchRef (home w)); [ exact Hm | ].
  apply modest_fetchPair; [ exact Hlt | ]. now apply modest_onHome.
Qed.

Lemma modest_handle (w w' : World) (e : Event) :
  modest w -> handle w e = Some w' -> modest w'.
Proof.
  intros Hm. destruct e as [side | | id | id result]; cbn [handle].
  - intros [= <-]. unfold chooseWord.
    destruct (phase (home w)); try exact Hm.
    destruct (currentPair (home w)) as [p |]; try exact Hm.
    set (w1 := onHome (fun x => setPhase Dissolving (setChosenSide (Some side) x)) w).
    assert (H1 : modest w1) by (now apply modest_onHome).
    destruct (len (words (home w) ++ [pick p side]) <? targetLength (home w)) eqn:E.
    + apply Z.ltb_lt in E.
      pose proof (modest_prefetchNext (words (home w)) (pick p side) w1 E H1) as H2.
      exact H2.
    + exact H1.
  - destruct (phase (home w)); try discriminate. intros [= <-].
    unfold beginSentence. apply modest_fetchPair.
    + destruct Hm as [HT _]. unfold len. cbn. lia.
    + now apply modest_onHome.
  - destruct (take id (tasks w)) as [[[who ws | c ws pf] rest] |]; try discriminate.
    intros [= <-]. unfold settle. cbn [onHome home targetLength setWords withTasks].
    assert (H0 : modest (withTasks rest w)) by exact Hm.
    destruct (targetLength (home w) <=? len (ws ++ [c])) eqn:Efull;
      destruct (Js.endsWithPeriod c); cbn [orb negb]; try exact Hm.
    destruct pf as [p |]; [ exact Hm | ].
    apply Z.leb_gt in Efull. apply modest_fetchPair; [ exact Efull | exact Hm ].
  - destruct (take id (tasks w)) as [[[who ws | c ws pf] rest] |]; try discriminate.
    intros [= <-]. destruct who, (proxiedFetchPair result); exact Hm.
Qed.

(** X19: the proxied page asks the route only for sentences shorter than
    its target.  In every reachable world each request so far carried
    fewer words than [targetLength]; its position was "first" exactly
    when it carried none, and only then does the route use its opening
    template. *)
Theorem proxied_requests_stay_below_target (w : World) :
  Reachable w ->
  Forall (fun ws =>
            len ws < targetLength (home w) /\
            (positionOf ws = "first" <-> ws = []) /\
            (positionPrompt ws (positionOf ws) = AskFirst <-> ws = []))
    (calls w).
Proof.
  intros Hr.
  assert (Hm : modest w).
  { induction Hr as [draw Hd | w w' e _ IH Hs].
    - unfold modest, mount, beginSentence, fetchPair. cbn -[Z.add].
      split; [ lia | ]. constructor; [ unfold len; cbn -[Z.add]; lia | constructor ].
    - exact (modest_handle _ _ _ IH Hs). }
  destruct Hm as [_ Hc]. revert Hc. apply Forall_impl. intros ws Hlt.
  split; [ exact Hlt | ].
  unfold positionOf, positionPrompt.
  destruct ws as [| x ws].
  - cbn. split; split; auto.
  - assert (E : (len (x :: ws) =? 0) = false)
      by (apply Z.eqb_neq; unfold len; cbn [length]; lia).
    rewrite E.
    destruct (String.eqb_spec "middle" "first") as [Hbad | _];
      [ discriminate Hbad | ].
    split; split; try discriminate.
    destruct (Z.max 0 (10 - len (x :: ws)) <=? 2); discriminate.
Qed.

(** [proxied_requests_stay_below_target] on the first request of a
    mounted page. *)
Lemma proxied_requests_stay_below_target_witness :
  calls (mount 0) = [[]] /\ len (@nil string) < targetLength (home (mount 0)).
Proof.
  split; [ reflexivity | ].
  pose proof (proxied_requests_stay_below_target (mount 0)
                ltac:(apply reach_mount; lia)) as H.
  inversion H as [| ws l Hws _]. exact (proj1 Hws).
Defined.
